(** * AIONUS real-estate platform: the RAG chunking / retrieval core

    A shallow embedding of the document-processing and retrieval code,
    and the properties of the specification checked against it.

    Sources:
    - the document processor of the server, flows/process_document
      (src/unnamed/part_001): [splitIntoChunks], [generateEmbeddings],
      [saveChunksToSupabase], [processDocument];
    - the RAG pipeline of the browser library (src/unnamed/part_002):
      [chunkDocument], [storeVectors];
    - the Gemini client of the browser library, lib/geminiClient
      (src/unnamed/part_003): [generateEmbedding], [generateEmbeddings];
    - the retriever, src/lib/rag.js: [generateQueryEmbedding],
      [retrieveContext];
    - src/supabase/migrations/001_rag_setup.sql: [match_documents];
    - src/config/env.js: [isConfigured].

    Numbers are integers ([Z]); the components of a vector and the
    thresholds are rationals ([Q]); a distance or a similarity is a
    [float8] of PostgreSQL, a rational or NaN, the [<=>] operator of
    pgvector being left to the environment; console output is not
    modelled. *)

From Stdlib Require Import ZArith NArith List String Ascii Bool Lia QArith.
From Stdlib Require Import Sorting.Sorted.
Import ListNotations.

Local Open Scope Z_scope.

(* ================================================================== *)
(** ** JavaScript strings *)
(* ================================================================== *)

(** A JavaScript string is a sequence of UTF-16 code units. *)
Module JsString.

Definition char := N.
Definition jsstring := list char.

(** String literals of the source, as code units. *)
Definition js (s : string) : jsstring :=
  List.map N_of_ascii (list_ascii_of_string s).

Definition LF : char := 10%N.
Definition SPACE : char := 32%N.
Definition DOT : char := 46%N.

(** [s.length] *)
Definition length (s : jsstring) : Z := Z.of_nat (List.length s).

(** The class [\s] of a regular expression, which is also what [trim]
    strips: WhiteSpace and LineTerminator of ECMAScript. *)
Definition is_whitespace (c : char) : bool :=
  ((9 <=? c) && (c <=? 13) || (c =? 32) || (c =? 160) || (c =? 5760)
   || (8192 <=? c) && (c <=? 8202) || (c =? 8232) || (c =? 8233)
   || (c =? 8239) || (c =? 8287) || (c =? 12288) || (c =? 65279))%N.

Definition is_newline (c : char) : bool := (c =? LF)%N.

(** [s.replace(/p+/g, rep)] for a character class [p] and a one-character
    replacement: every maximal run of [p] becomes one [rep].  [in_run]
    tells that the previous character was part of the current run. *)
Fixpoint replace_runs (p : char -> bool) (rep : char) (in_run : bool)
    (s : jsstring) : jsstring :=
  match s with
  | [] => []
  | c :: r =>
      if p c then
        if in_run then replace_runs p rep true r
        else rep :: replace_runs p rep true r
      else c :: replace_runs p rep false r
  end.

Fixpoint trimStart (s : jsstring) : jsstring :=
  match s with
  | [] => []
  | c :: r => if is_whitespace c then trimStart r else s
  end.

Definition trimEnd (s : jsstring) : jsstring := rev (trimStart (rev s)).

(** [s.trim()] *)
Definition trim (s : jsstring) : jsstring := trimEnd (trimStart s).

(** Relative index of [slice]: negative counts from the end, and the
    result is clamped to [0, len]. *)
Definition rel_index (len i : Z) : Z :=
  if i <? 0 then Z.max (len + i) 0 else Z.min i len.

(** [s.slice(from, to)], also used for arrays. *)
Definition slice {A} (s : list A) (from to : Z) : list A :=
  let len := Z.of_nat (List.length s) in
  let a := rel_index len from in
  let b := rel_index len to in
  firstn (Z.to_nat (b - a)) (skipn (Z.to_nat a) s).

(** [a.slice(from)] *)
Definition slice_from {A} (s : list A) (from : Z) : list A :=
  skipn (Z.to_nat (rel_index (Z.of_nat (List.length s)) from)) s.

(** Scan for [s.lastIndexOf(c, pos)]: the greatest index [k <= pos] with
    [s[k] = c], [acc] when there is none; [i] is the index of the head. *)
Fixpoint lastIndexOf_scan (c : char) (s : jsstring) (i pos acc : Z) : Z :=
  match s with
  | [] => acc
  | x :: r =>
      lastIndexOf_scan c r (i + 1) pos
        (if (x =? c)%N && (i <=? pos) then i else acc)
  end.

(** [s.lastIndexOf(c, pos)] for a one-character search string: the start
    position is clamped to [0, len - 1]; -1 when not found. *)
Definition lastIndexOf (c : char) (s : jsstring) (pos : Z) : Z :=
  lastIndexOf_scan c s 0 (Z.max pos 0) (-1).

Fixpoint is_prefix (p s : jsstring) : bool :=
  match p, s with
  | [], _ => true
  | _ :: _, [] => false
  | a :: p', b :: s' => (a =? b)%N && is_prefix p' s'
  end.

Fixpoint indexOf_scan (pat s : jsstring) (i : Z) : Z :=
  if is_prefix pat s then i
  else match s with
       | [] => -1
       | _ :: r => indexOf_scan pat r (i + 1)
       end.

(** [s.indexOf(pat)]: the first occurrence, -1 when there is none. *)
Definition indexOf (s pat : jsstring) : Z := indexOf_scan pat s 0.

(** [s.split(sep)] for a non-empty separator: leftmost, non-overlapping
    occurrences.  [cur] is the piece being read, reversed; [skip] counts
    the characters of a separator occurrence still to be passed over. *)
Fixpoint split_scan (sep s : jsstring) (cur : jsstring) (skip : nat)
    : list jsstring :=
  match s with
  | [] => [rev cur]
  | c :: r =>
      match skip with
      | S k => split_scan sep r cur k
      | O =>
          if is_prefix sep s
          then rev cur :: split_scan sep r [] (List.length sep - 1)
          else split_scan sep r (c :: cur) O
      end
  end.

Definition split (s sep : jsstring) : list jsstring := split_scan sep s [] O.

(** [a.join(sep)] *)
Fixpoint join (sep : jsstring) (a : list jsstring) : jsstring :=
  match a with
  | [] => []
  | [x] => x
  | x :: r => x ++ sep ++ join sep r
  end.

(** Truthiness of a string: [''] is falsy. *)
Definition truthy (s : jsstring) : bool :=
  match s with [] => false | _ => true end.

End JsString.
Import JsString.

(* ================================================================== *)
(** ** The sliding-window chunker (src/unnamed/part_001) *)
(* ================================================================== *)

Module ProcessDocumentChunker.

Definition CHUNK_SIZE : Z := 900.
Definition CHUNK_OVERLAP : Z := 100.

(** The cleaning step of [splitIntoChunks]:
    [text.replace(/\s+/g, ' ').replace(/\n+/g, '\n').trim()]. *)
Definition cleanText (text : jsstring) : jsstring :=
  trim (replace_runs is_newline LF false
          (replace_runs is_whitespace SPACE false text)).

(** The end of the window that starts at [start]. [chunkSize / 2] is a
    floating-point division in the source; on integers the test
    [breakPoint > start + chunkSize / 2] is
    [2 * start + chunkSize < 2 * breakPoint]. *)
Definition window_end (clean : jsstring) (chunkSize start : Z) : Z :=
  let end0 := start + chunkSize in
  if end0 <? length clean then
    let lastPeriod := lastIndexOf DOT clean end0 in
    let lastNewline := lastIndexOf LF clean end0 in
    let breakPoint := Z.max lastPeriod lastNewline in
    if 2 * start + chunkSize <? 2 * breakPoint then breakPoint + 1 else end0
  else end0.

(** The [while (start < cleanText.length)] loop. One unit of fuel is
    spent on each evaluation of the loop condition; [None] is a loop that
    was still running when the fuel ran out. *)
Fixpoint chunk_loop (fuel : nat) (clean : jsstring) (chunkSize overlap : Z)
    (start : Z) (chunks : list jsstring) : option (list jsstring) :=
  match fuel with
  | O => None
  | S fuel' =>
      if start <? length clean then
        let end_ := window_end clean chunkSize start in
        let chunk := trim (slice clean start end_) in
        let chunks' :=
          if 0 <? length chunk then chunks ++ [chunk] else chunks in
        chunk_loop fuel' clean chunkSize overlap (end_ - overlap) chunks'
      else Some chunks
  end.

Definition splitIntoChunks (fuel : nat) (text : jsstring)
    (chunkSize overlap : Z) : option (list jsstring) :=
  let clean := cleanText text in
  if length clean <=? chunkSize then Some [clean]
  else chunk_loop fuel clean chunkSize overlap 0 [].

End ProcessDocumentChunker.

(* ================================================================== *)
(** ** The paragraph-aggregating chunker (src/unnamed/part_002) *)
(* ================================================================== *)

Module RagPipelineChunker.

(** The [options] argument of [chunkDocument]; an absent field is [None]. *)
Record Options := mkOptions {
  opt_chunkSize : option Z;
  opt_overlap : option Z;
  opt_separator : option jsstring
}.

Definition no_options : Options := mkOptions None None None.

(** [options.field || dflt] on a number: absent and 0 both give [dflt]. *)
Definition num_or (o : option Z) (dflt : Z) : Z :=
  match o with
  | Some n => if n =? 0 then dflt else n
  | None => dflt
  end.

(** [options.field || dflt] on a string: absent and [''] both give [dflt]. *)
Definition str_or (o : option jsstring) (dflt : jsstring) : jsstring :=
  match o with
  | Some s => if truthy s then s else dflt
  | None => dflt
  end.

Record Chunk := mkChunk {
  id : Z;
  content : jsstring;
  charStart : Z;
  charEnd : Z
}.

(** The state of the [for (const paragraph of paragraphs)] loop. *)
Record LoopState := mkLoop {
  chunks : list Chunk;
  currentChunk : jsstring;
  chunkIndex : Z
}.

Definition make_chunk (text : jsstring) (st : LoopState) : Chunk :=
  mkChunk (chunkIndex st)
          (trim (currentChunk st))
          (indexOf text (currentChunk st))
          (indexOf text (currentChunk st) + length (currentChunk st)).

(** One iteration of the loop body. *)
Definition step (text : jsstring) (chunkSize overlap : Z)
    (separator : jsstring) (st : LoopState) (paragraph : jsstring)
    : LoopState :=
  let cur := currentChunk st in
  if (chunkSize <? length cur + length paragraph) && (0 <? length cur) then
    let words := split cur [SPACE] in
    let overlapWords := slice_from words (- (overlap / 5)) in
    mkLoop (chunks st ++ [make_chunk text st])
           (join [SPACE] overlapWords ++ [SPACE] ++ paragraph)
           (chunkIndex st + 1)
  else
    mkLoop (chunks st)
           (cur ++ (if truthy cur then separator else []) ++ paragraph)
           (chunkIndex st).

Definition chunkDocument (text : jsstring) (options : Options) : list Chunk :=
  let chunkSize := num_or (opt_chunkSize options) 1000 in
  let overlap := num_or (opt_overlap options) 200 in
  let separator := str_or (opt_separator options) [LF; LF] in
  let paragraphs :=
    filter (fun p => truthy (trim p)) (split text separator) in
  let st :=
    fold_left (step text chunkSize overlap separator) paragraphs
              (mkLoop [] [] 0) in
  if truthy (trim (currentChunk st))
  then chunks st ++ [make_chunk text st]
  else chunks st.

End RagPipelineChunker.

(* ================================================================== *)
(** ** Effects: exceptions and the outside world *)
(* ================================================================== *)

Module Effects.

(** The outcome of running a piece of JavaScript: a value, a thrown
    error (its [message]), or a computation that never finishes. *)
Inductive Result (A : Type) : Type :=
| Ok (a : A)
| Throw (message : jsstring)
| Diverge.
Arguments Ok {A} a.
Arguments Throw {A} message.
Arguments Diverge {A}.

(** A computation over a state [W]. The state reached is kept when an
    error is thrown: the effects made before a [throw] are not undone. *)
Definition M (W A : Type) : Type := W -> Result A * W.

Definition ret {W A} (a : A) : M W A := fun w => (Ok a, w).

Definition throw {W A} (message : jsstring) : M W A :=
  fun w => (Throw message, w).

Definition bind {W A B} (m : M W A) (k : A -> M W B) : M W B :=
  fun w =>
    match m w with
    | (Ok a, w') => k a w'
    | (Throw e, w') => (Throw e, w')
    | (Diverge, w') => (Diverge, w')
    end.

(** [try { m } catch (error) { handler(error.message) }] *)
Definition try_catch {W A} (m : M W A) (handler : jsstring -> M W A)
    : M W A :=
  fun w =>
    match m w with
    | (Throw e, w') => handler e w'
    | r => r
    end.

(** A loop bounded by fuel, inside a computation. *)
Definition of_fuel {W A} (o : option A) : M W A :=
  fun w => match o with Some a => (Ok a, w) | None => (Diverge, w) end.

Declare Scope js_scope.
Delimit Scope js_scope with js.
Notation "x <- m ;; k" := (bind m (fun x => k))
  (at level 100, m at next level, right associativity) : js_scope.
Notation "' p <- m ;; k" := (bind m (fun x => let 'p := x in k))
  (at level 100, p pattern, m at next level, right associativity) : js_scope.

End Effects.
Import Effects.

(* ================================================================== *)
(** ** The outside world: configuration, embedding endpoint, database *)
(* ================================================================== *)

Module World.

Definition vector := list Q.

(** A row of [document_chunks] (migration 001_rag_setup.sql). The
    [embedding] column is nullable. [created_at] is left out. *)
Record ChunkRow := mkChunkRow {
  row_id : Z;
  row_document_id : jsstring;
  row_content : jsstring;
  row_embedding : option vector;
  row_document_type : jsstring
}.

(** A row of [embeddings] (the table [storeVectors] writes); the [embedding]
    column is nullable there too. [metadata] and [created_at] are left
    out. *)
Record EmbeddingRow := mkEmbeddingRow {
  document_id : jsstring;
  chunk_index : Z;
  erow_content : jsstring;
  erow_embedding : option vector;
  char_start : Z;
  char_end : Z
}.

(** [await response.json()]: the parsed body, or the error it rejects
    with. *)
Inductive Json (A : Type) : Type :=
| BadJson (message : jsstring)
| Parsed (a : A).
Arguments BadJson {A} message.
Arguments Parsed {A} a.

(** The body of a refused request: [JSON.stringify] of it and its
    [error.message] field when it has one. *)
Record ErrorBody := mkErrorBody {
  stringified : jsstring;
  error_message : option jsstring
}.

(** What [fetch] of the [embedContent] endpoint gives: a rejected
    promise, a response that is not [ok], or an [ok] response whose body
    holds [data.embedding] (outer option) and [data.embedding.values]
    (inner option). *)
Inductive FetchOutcome : Type :=
| NetworkError (message : jsstring)
| HttpError (body : Json ErrorBody)
| HttpOk (body : Json (option (option vector))).

(** What an [insert] of one row does: stores it, answers with an
    [error], or throws. *)
Inductive InsertOutcome : Type :=
| Inserted
| Refused (message : jsstring)
| InsertThrew (message : jsstring).

(** A PDF or DOCX parser: the text, or the error it throws. *)
Definition Parser := list N -> jsstring + jsstring.

(** A [float8] of PostgreSQL, as a distance or a similarity is one: a
    number, or NaN. *)
Inductive float8 : Type :=
| Finite (q : Q)
| NaN.

(** Configuration and the behaviour of the external services. *)
Record Env := mkEnv {
  GEMINI_API_KEY : option jsstring;
  SUPABASE_URL : option jsstring;
  SUPABASE_SERVICE_ROLE_KEY : option jsstring;
  SUPABASE_ANON_KEY : option jsstring;
  (** the answer to the [n]-th outbound call, made for a given text *)
  embed_endpoint : nat -> jsstring -> FetchOutcome;
  (** the [<=>] operator of pgvector on two vectors of one dimension;
      it is NaN when a vector has no direction (the zero vector) *)
  cosine_distance : vector -> vector -> float8;
  (** the rows of [document_chunks] the plan of a query visits: all of
      them in a sequential scan, the probed lists when the ivfflat index
      [document_chunks_embedding_idx] is used *)
  index_scan : vector -> ChunkRow -> bool;
  (** an RPC that the server cannot run (function not installed ...) *)
  rpc_failure : option vector -> Q -> Z -> option jsstring;
  (** a table read that fails *)
  select_failure : list ChunkRow -> Z -> option jsstring;
  insert_outcome : list ChunkRow -> ChunkRow -> InsertOutcome;
  embeddings_insert_failure :
    list EmbeddingRow -> list EmbeddingRow -> option jsstring;
  (** the dynamic import of the Supabase SDK succeeds *)
  sdk_loads : bool;
  pdfParse : Parser;
  mammoth : Parser
}.

(** The mutable part: the outbound calls made so far (the text each one
    carried, oldest first) and the two tables. *)
Record State := mkState {
  fetch_log : list jsstring;
  document_chunks : list ChunkRow;
  embeddings : list EmbeddingRow
}.

(** Truthiness of [process.env.X] / [ENV.X]: unset and [''] are falsy. *)
Definition is_set (v : option jsstring) : bool :=
  match v with Some s => truthy s | None => false end.

(** [isConfigured(service)] of config/env.js *)
Definition isConfigured_gemini (E : Env) : bool := is_set (GEMINI_API_KEY E).
Definition isConfigured_supabase (E : Env) : bool :=
  is_set (SUPABASE_URL E) && is_set (SUPABASE_ANON_KEY E).

(** [fetch(.../models/MODEL:embedContent?key=KEY, {... text ...})] *)
Definition fetch_embedContent (E : Env) (text : jsstring)
    : M State FetchOutcome :=
  fun w =>
    (Ok (embed_endpoint E (List.length (fetch_log w)) text),
     mkState (fetch_log w ++ [text]) (document_chunks w) (embeddings w)).

(** The [{ data, error }] answer of the Supabase client. *)
Record Response (A : Type) := mkResponse {
  data : option A;
  error : option jsstring
}.
Arguments mkResponse {A} data error.
Arguments data {A} r.
Arguments error {A} r.

End World.
Import World.

(* ================================================================== *)
(** ** The chunk store: [match_documents] (001_rag_setup.sql) *)
(* ================================================================== *)

Module ChunkStore.

(** A row of the table the function returns. *)
Record MatchRow := mkMatchRow {
  id : Z;
  document_id : jsstring;
  content : jsstring;
  similarity : float8
}.

Definition Qlt_bool (a b : Q) : bool := negb (Qle_bool b a).

(** [1 - d]; NaN stays NaN. *)
Definition one_minus (d : float8) : float8 :=
  match d with
  | Finite q => Finite (1 - q)
  | NaN => NaN
  end.

(** [a > b] on [float8]: PostgreSQL takes NaN as equal to NaN and
    greater than every number. *)
Definition float8_gt (a b : float8) : bool :=
  match a, b with
  | Finite x, Finite y => Qlt_bool y x
  | Finite _, NaN => false
  | NaN, Finite _ => true
  | NaN, NaN => false
  end.

(** [a <= b], the order of [ORDER BY ... ASC]: NaN comes last. *)
Definition float8_le (a b : float8) : bool := negb (float8_gt a b).

(** The values of the type [int]. *)
Definition is_int4 (n : Z) : bool :=
  (-2147483648 <=? n) && (n <=? 2147483647).

(** An SQL statement gives rows, or fails with an error. The text of
    the errors is a summary of the one of the server. *)
Definition Sql (A : Type) : Type := (jsstring + A)%type.

(** [document_chunks.embedding <=> query_embedding]: NULL ([None]) on a
    NULL embedding, an error on vectors of different dimensions. *)
Definition distance (cd : vector -> vector -> float8)
    (query_embedding : vector) (r : ChunkRow) : option (Sql float8) :=
  match row_embedding r with
  | None => None
  | Some e =>
      Some (if Nat.eqb (List.length e) (List.length query_embedding)
            then inr (cd e query_embedding)
            else inl (js "different vector dimensions"))
  end.

(** [WHERE 1 - (embedding <=> query_embedding) > match_threshold] over
    the rows visited; a NULL condition rejects the row. The rows that
    pass, with their distance. *)
Fixpoint where_clause (cd : vector -> vector -> float8)
    (query_embedding : vector) (match_threshold : float8)
    (table : list ChunkRow) : Sql (list (float8 * ChunkRow)) :=
  match table with
  | [] => inr []
  | r :: rest =>
      match distance cd query_embedding r with
      | None => where_clause cd query_embedding match_threshold rest
      | Some (inl e) => inl e
      | Some (inr d) =>
          match where_clause cd query_embedding match_threshold rest with
          | inl e => inl e
          | inr passed =>
              inr (if float8_gt (one_minus d) match_threshold
                   then (d, r) :: passed else passed)
          end
      end
  end.

Fixpoint insert_by_distance (x : float8 * ChunkRow)
    (l : list (float8 * ChunkRow)) : list (float8 * ChunkRow) :=
  match l with
  | [] => [x]
  | y :: r =>
      if float8_le (fst x) (fst y) then x :: l
      else y :: insert_by_distance x r
  end.

(** [ORDER BY embedding <=> query_embedding] (ascending) *)
Definition order_by_distance (l : list (float8 * ChunkRow))
    : list (float8 * ChunkRow) :=
  fold_right insert_by_distance [] l.

(** The SELECT list. *)
Definition select_row (x : float8 * ChunkRow) : MatchRow :=
  mkMatchRow (row_id (snd x)) (row_document_id (snd x)) (row_content (snd x))
             (one_minus (fst x)).

(** [match_documents(query_embedding, match_threshold, match_count)] on
    the rows [visited] says the plan reads. [match_count] is an [int];
    a vector has at least one dimension; PostgreSQL refuses a negative
    LIMIT before it reads a row, and reads no row for [LIMIT 0]. *)
Definition match_documents (cd : vector -> vector -> float8)
    (visited : vector -> ChunkRow -> bool)
    (table : list ChunkRow) (query_embedding : vector)
    (match_threshold : float8) (match_count : Z) : Sql (list MatchRow) :=
  if negb (is_int4 match_count) then
    inl (js "value out of range for type integer")
  else
    match query_embedding with
    | [] => inl (js "vector must have at least 1 dimension")
    | _ =>
        if match_count <? 0 then inl (js "LIMIT must not be negative")
        else if match_count =? 0 then inr []
        else
          match where_clause cd query_embedding match_threshold
                  (filter (visited query_embedding) table) with
          | inl e => inl e
          | inr passed =>
              inr (map select_row
                     (firstn (Z.to_nat match_count)
                        (order_by_distance passed)))
          end
    end.

(** [supabase.rpc('match_documents', {...})]. The client does not throw:
    a failure is reported in [error]. A call without [query_embedding]
    matches no function. *)
Definition rpc_match_documents (E : Env) (query_embedding : option vector)
    (match_threshold : Q) (match_count : Z)
    : M State (Response (list MatchRow)) :=
  fun w =>
    match rpc_failure E query_embedding match_threshold match_count with
    | Some e => (Ok (mkResponse None (Some e)), w)
    | None =>
        match query_embedding with
        | None =>
            (Ok (mkResponse None
                   (Some (js "Could not find the function match_documents"))),
             w)
        | Some qe =>
            match match_documents (cosine_distance E) (index_scan E)
                    (document_chunks w) qe (Finite match_threshold)
                    match_count with
            | inr rows => (Ok (mkResponse (Some rows) None), w)
            | inl e => (Ok (mkResponse None (Some e)), w)
            end
        end
    end.

(** [supabase.from('document_chunks').select('content, document_id')
    .limit(n)]: the request names the table, the columns and the limit,
    nothing else. *)
Definition select_limit (E : Env) (n : Z)
    : M State (Response (list ChunkRow)) :=
  fun w =>
    match select_failure E (document_chunks w) n with
    | Some e => (Ok (mkResponse None (Some e)), w)
    | None =>
        if n <? 0
        then (Ok (mkResponse None (Some (js "LIMIT must not be negative"))), w)
        else (Ok (mkResponse (Some (firstn (Z.to_nat n) (document_chunks w)))
                    None), w)
    end.

(** [supabase.from('document_chunks').insert(row)]: the answer's [error].
    The database numbers the row. *)
Definition insert_chunk (E : Env) (row : ChunkRow)
    : M State (option jsstring) :=
  fun w =>
    match insert_outcome E (document_chunks w) row with
    | Inserted =>
        (Ok None,
         mkState (fetch_log w)
           (document_chunks w ++
              [mkChunkRow (Z.of_nat (List.length (document_chunks w)))
                 (row_document_id row) (row_content row) (row_embedding row)
                 (row_document_type row)])
           (embeddings w))
    | Refused e => (Ok (Some e), w)
    | InsertThrew e => (Throw e, w)
    end.

(** [client.from('embeddings').insert(rows).select()]: all rows or none. *)
Definition insert_embeddings (E : Env) (rows : list EmbeddingRow)
    : M State (Response (list EmbeddingRow)) :=
  fun w =>
    match embeddings_insert_failure E (embeddings w) rows with
    | Some e => (Ok (mkResponse None (Some e)), w)
    | None =>
        (Ok (mkResponse (Some rows) None),
         mkState (fetch_log w) (document_chunks w) (embeddings w ++ rows))
    end.

(** [createServiceClient()] of the server modules. *)
Definition createServiceClient (E : Env) : M State unit :=
  if is_set (SUPABASE_URL E) && is_set (SUPABASE_SERVICE_ROLE_KEY E)
  then ret tt
  else throw (js "Missing SUPABASE_URL or SUPABASE_SERVICE_ROLE_KEY").

(** [getSupabase()] of lib/supabaseClient.js: the client, or null. *)
Definition getSupabase (E : Env) : bool :=
  isConfigured_supabase E && sdk_loads E.

End ChunkStore.

(* ================================================================== *)
(** ** The retriever (src/lib/rag.js) *)
(* ================================================================== *)

Module Rag.

Local Open Scope js_scope.

Definition TOP_K : Z := 5.

Definition undefined_values : jsstring :=
  js "Cannot read properties of undefined (reading 'values')".

(** [generateQueryEmbedding(query)]; the value returned is
    [data.embedding.values], which may be undefined. *)
Definition generateQueryEmbedding (E : Env) (query : jsstring)
    : M State (option vector) :=
  if negb (is_set (GEMINI_API_KEY E)) then
    throw (js "GEMINI_API_KEY is required")
  else
    response <- fetch_embedContent E query ;;
    match response with
    | NetworkError e => throw e
    | HttpError (BadJson e) => throw e
    | HttpError (Parsed err) =>
        throw (js "Embedding API error: " ++ stringified err)
    | HttpOk (BadJson e) => throw e
    | HttpOk (Parsed None) => throw undefined_values
    | HttpOk (Parsed (Some values)) => ret values
    end.

Inductive Source := vector_search | fallback.

(** The object [retrieveContext] resolves to; an absent field is [None]. *)
Record Context := mkContext {
  context : jsstring;
  chunks : Z;
  source : option Source;
  error : option jsstring
}.

Definition separator : jsstring := [LF; LF] ++ js "---" ++ [LF; LF].

(** [data?.map(d => d.content).join('\n\n---\n\n') || ''] *)
Definition join_contents {R} (content : R -> jsstring) (d : option (list R))
    : jsstring :=
  match d with
  | Some rows => join separator (map content rows)
  | None => []
  end.

(** [data?.length || 0] *)
Definition count {R} (d : option (list R)) : Z :=
  match d with
  | Some rows => Z.of_nat (List.length rows)
  | None => 0
  end.

(** [retrieveContext(query, topK = TOP_K)] *)
Definition retrieveContext (E : Env) (query : jsstring) (topK : option Z)
    : M State Context :=
  let topK := match topK with Some k => k | None => TOP_K end in
  try_catch
    (queryEmbedding <- generateQueryEmbedding E query ;;
     _ <- ChunkStore.createServiceClient E ;;
     r <- ChunkStore.rpc_match_documents E queryEmbedding (1 # 2) topK ;;
     match World.error r with
     | Some _ =>
         f <- ChunkStore.select_limit E topK ;;
         match World.error f with
         | Some fallbackError => throw fallbackError
         | None =>
             ret (mkContext (join_contents row_content (data f))
                    (count (data f)) (Some fallback) None)
         end
     | None =>
         ret (mkContext (join_contents ChunkStore.content (data r))
                (count (data r)) (Some vector_search) None)
     end)
    (fun message => ret (mkContext [] 0 None (Some message))).

End Rag.

(* ================================================================== *)
(** ** The embedding gateway of the browser library (src/unnamed/part_003) *)
(* ================================================================== *)

Module GeminiClient.

Local Open Scope js_scope.

(** [{ embedding, error }] *)
Record Embedding := mkEmbedding {
  embedding : option vector;
  error : option jsstring
}.

Definition not_configured : jsstring := js "API key not configured".

(** [generateEmbedding(text)]: never throws; a failure is an object with
    a null [embedding] and an [error]. *)
Definition generateEmbedding (E : Env) (text : jsstring)
    : M State Embedding :=
  if negb (isConfigured_gemini E) then
    ret (mkEmbedding None (Some not_configured))
  else
    try_catch
      (response <- fetch_embedContent E text ;;
       match response with
       | NetworkError e => throw e
       | HttpError (BadJson e) => throw e
       | HttpError (Parsed err) =>
           throw (match error_message err with
                  | Some m => if truthy m then m
                              else js "Embedding request failed"
                  | None => js "Embedding request failed"
                  end)
       | HttpOk (BadJson e) => throw e
       | HttpOk (Parsed None) => ret (mkEmbedding None None)
       | HttpOk (Parsed (Some values)) => ret (mkEmbedding values None)
       end)
      (fun message => ret (mkEmbedding None (Some message))).

(** [Promise.all(texts.map(f))]: the calls are started in the order of
    [texts] and the results are gathered in that order; the first
    rejection rejects the whole. *)
Fixpoint promise_all {A B} (f : A -> M State B) (texts : list A)
    : M State (list B) :=
  match texts with
  | [] => ret []
  | t :: r =>
      x <- f t ;;
      xs <- promise_all f r ;;
      ret (x :: xs)
  end.

(** [{ embeddings, error }] *)
Record Embeddings := mkEmbeddings {
  embeddings : list (option vector);
  batch_error : option jsstring
}.

(** [generateEmbeddings(texts)] *)
Definition generateEmbeddings (E : Env) (texts : list jsstring)
    : M State Embeddings :=
  if negb (isConfigured_gemini E) then
    ret (mkEmbeddings [] (Some not_configured))
  else
    try_catch
      (results <- promise_all (generateEmbedding E) texts ;;
       ret (mkEmbeddings (map embedding results) None))
      (fun message => ret (mkEmbeddings [] (Some message))).

End GeminiClient.

(* ================================================================== *)
(** ** Vector storage of the browser library (src/unnamed/part_002) *)
(* ================================================================== *)

Module RagPipeline.

Local Open Scope js_scope.

(** [{ success, count, error }] *)
Record StoreResult := mkStoreResult {
  success : bool;
  count : option Z;
  error : option jsstring
}.

(** [chunks.map((chunk, index) => ({ ..., embedding: embeddings[index],
    ... }))]; an index past the end of [embeddings] reads undefined,
    which is stored as NULL. *)
Fixpoint prepare_rows (documentId : jsstring)
    (chunks : list RagPipelineChunker.Chunk)
    (embeddings : list (option vector)) : list EmbeddingRow :=
  match chunks with
  | [] => []
  | chunk :: rest =>
      mkEmbeddingRow documentId
        (RagPipelineChunker.id chunk)
        (RagPipelineChunker.content chunk)
        (match embeddings with e :: _ => e | [] => None end)
        (RagPipelineChunker.charStart chunk)
        (RagPipelineChunker.charEnd chunk)
      :: prepare_rows documentId rest (tl embeddings)
  end.

(** [storeVectors(documentId, chunks)] *)
Definition storeVectors (E : Env) (documentId : jsstring)
    (chunks : list RagPipelineChunker.Chunk) : M State StoreResult :=
  if negb (isConfigured_supabase E) || negb (isConfigured_gemini E) then
    ret (mkStoreResult false None (Some (js "Services not configured")))
  else
    try_catch
      (let texts := map RagPipelineChunker.content chunks in
       r <- GeminiClient.generateEmbeddings E texts ;;
       match GeminiClient.batch_error r with
       | Some embError => throw (js "Embedding error: " ++ embError)
       | None =>
           if negb (ChunkStore.getSupabase E) then
             throw (js "Supabase client not available")
           else
             let rows :=
               prepare_rows documentId chunks (GeminiClient.embeddings r) in
             a <- ChunkStore.insert_embeddings E rows ;;
             match World.error a with
             | Some e => throw e
             | None =>
                 match data a with
                 | Some stored =>
                     ret (mkStoreResult true
                            (Some (Z.of_nat (List.length stored))) None)
                 | None =>
                     throw
                       (js "Cannot read properties of null (reading 'length')")
                 end
             end
       end)
      (fun message => ret (mkStoreResult false None (Some message))).

End RagPipeline.

(* ================================================================== *)
(** ** The document processor of the server (src/unnamed/part_001) *)
(* ================================================================== *)

Module ProcessDocument.

Local Open Scope js_scope.
Import ProcessDocumentChunker.

Definition PDF : jsstring := js "application/pdf".
Definition DOCX : jsstring :=
  js "application/vnd.openxmlformats-officedocument.wordprocessingml.document".

Definition jsstring_eqb (a b : jsstring) : bool :=
  if list_eq_dec N.eq_dec a b then true else false.

(** [extractText(buffer, mimeType)] *)
Definition extractText (E : Env) (buffer : list N) (mimeType : jsstring)
    : M State jsstring :=
  let run (p : Parser) : M State jsstring :=
    match p buffer with inl text => ret text | inr e => throw e end in
  if jsstring_eqb mimeType PDF then run (pdfParse E)
  else if jsstring_eqb mimeType DOCX then run (mammoth E)
  else throw (js "Unsupported file type: " ++ mimeType).

(** The body of [for (const chunk of chunks)] in [generateEmbeddings]:
    the vector pushed for one chunk, null when anything failed. The
    value pushed on success is [data.embedding.values], which may be
    undefined. *)
Definition embed_chunk (E : Env) (chunk : jsstring)
    : M State (option vector) :=
  try_catch
    (response <- fetch_embedContent E chunk ;;
     match response with
     | NetworkError e => throw e
     | HttpError (BadJson e) => throw e
     | HttpError (Parsed err) =>
         throw (js "Embedding API error: " ++ stringified err)
     | HttpOk (BadJson e) => throw e
     | HttpOk (Parsed None) => throw Rag.undefined_values
     | HttpOk (Parsed (Some values)) => ret values
     end)
    (fun _ => ret None).

Fixpoint embed_loop (E : Env) (chunks : list jsstring)
    (embeddings : list (option vector)) : M State (list (option vector)) :=
  match chunks with
  | [] => ret embeddings
  | chunk :: rest =>
      e <- embed_chunk E chunk ;;
      embed_loop E rest (embeddings ++ [e])
  end.

(** [generateEmbeddings(chunks)] *)
Definition generateEmbeddings (E : Env) (chunks : list jsstring)
    : M State (list (option vector)) :=
  if negb (is_set (GEMINI_API_KEY E)) then
    throw (js "GEMINI_API_KEY is required for embeddings")
  else embed_loop E chunks [].

(** The [for (let i = 0; i < chunks.length; i++)] loop of
    [saveChunksToSupabase], on the chunks and embeddings from index [i]
    on; [embeddings[i]] past the end is undefined. *)
Fixpoint save_loop (E : Env) (chunks : list jsstring)
    (embeddings : list (option vector)) (documentId documentType : jsstring)
    (savedCount : Z) : M State Z :=
  match chunks with
  | [] => ret savedCount
  | chunk :: rest =>
      match (match embeddings with e :: _ => e | [] => None end) with
      | None =>
          save_loop E rest (tl embeddings) documentId documentType savedCount
      | Some embedding =>
          saved <-
            try_catch
              (err <- ChunkStore.insert_chunk E
                        (mkChunkRow 0 documentId chunk (Some embedding)
                           documentType) ;;
               match err with
               | Some _ => ret false
               | None => ret true
               end)
              (fun _ => ret false) ;;
          save_loop E rest (tl embeddings) documentId documentType
            (if saved : bool then savedCount + 1 else savedCount)
      end
  end.

(** [saveChunksToSupabase(chunks, embeddings, documentId, documentType)] *)
Definition saveChunksToSupabase (E : Env) (chunks : list jsstring)
    (embeddings : list (option vector)) (documentId documentType : jsstring)
    : M State Z :=
  _ <- ChunkStore.createServiceClient E ;;
  save_loop E chunks embeddings documentId documentType 0.

(** The object [processDocument] resolves to. *)
Record Processed := mkProcessed {
  success : bool;
  document_id : option jsstring;
  chunks_created : Z;
  total_chunks : option Z;
  error : option jsstring
}.

(** Fuel for the chunking loop: more iterations than it can make when
    [2 * overlap <= chunkSize]. *)
Definition chunk_fuel (clean : jsstring) (chunkSize overlap : Z) : nat :=
  S (S (Z.to_nat (2 * length clean / (chunkSize - 2 * overlap + 1)))).

(** [processDocument(buffer, documentId, mimeType, documentType)] *)
Definition processDocument (E : Env) (buffer : list N)
    (documentId mimeType documentType : jsstring) : M State Processed :=
  try_catch
    (text <- extractText E buffer mimeType ;;
     if negb (truthy text) || (length text <? 10) then
       ret (mkProcessed false None 0 None
              (Some (js "Document contains no extractable text")))
     else
       chunks <- of_fuel
                   (splitIntoChunks
                      (chunk_fuel (cleanText text) CHUNK_SIZE CHUNK_OVERLAP)
                      text CHUNK_SIZE CHUNK_OVERLAP) ;;
       embeddings <- generateEmbeddings E chunks ;;
       savedCount <-
         saveChunksToSupabase E chunks embeddings documentId documentType ;;
       ret (mkProcessed true (Some documentId) savedCount
              (Some (Z.of_nat (List.length chunks))) None))
    (fun message => ret (mkProcessed false None 0 None (Some message))).

End ProcessDocument.

(* ================================================================== *)
(** ** What a run is observed to do *)
(* ================================================================== *)

Module Observations.

(** What the gateways make of the answer to one outbound call: the
    [values] of an [ok] response with an [embedding]; null otherwise. *)
Definition vector_of_response (o : FetchOutcome) : option vector :=
  match o with
  | HttpOk (Parsed (Some values)) => values
  | _ => None
  end.

(** The answers to the calls number [n], [n + 1], ... made for [texts]
    in turn. *)
Fixpoint answers (E : Env) (n : nat) (texts : list jsstring)
    : list (option vector) :=
  match texts with
  | [] => []
  | t :: r => vector_of_response (embed_endpoint E n t) :: answers E (S n) r
  end.

(** The [error] of the answer to the [match_documents] RPC. *)
Definition rpc_error (E : Env) (query_embedding : option vector) (k : Z)
    (w : State) : option jsstring :=
  match fst (ChunkStore.rpc_match_documents E query_embedding (1 # 2) k w) with
  | Ok r => World.error r
  | _ => None
  end.

(** The first character, if any, is not whitespace. *)
Definition starts_clean (s : jsstring) : Prop :=
  match s with
  | c :: _ => is_whitespace c = false
  | [] => True
  end.

(** Neither end of the string is whitespace. *)
Definition trimmed (s : jsstring) : Prop :=
  starts_clean s /\ starts_clean (rev s).

(** No two whitespace characters in a row. *)
Fixpoint single_spaced (s : jsstring) : Prop :=
  match s with
  | a :: r =>
      match r with
      | b :: _ => is_whitespace a && is_whitespace b = false
      | [] => True
      end /\ single_spaced r
  | [] => True
  end.

(** The state after the outbound calls made for [texts], in turn. *)
Definition called (w : State) (texts : list jsstring) : State :=
  mkState (fetch_log w ++ texts) (document_chunks w) (World.embeddings w).

(** A computation that finishes, with a value or an error. *)
Definition finishes {A} (m : M State A) : Prop :=
  forall w, fst (m w) <> Diverge.

(** A computation that resolves: it finishes and throws nothing. *)
Definition resolves {A} (m : M State A) : Prop :=
  forall w, exists a w', m w = (Ok a, w').

(** The number of embeddings that are there, among the first [n]. *)
Fixpoint present (n : nat) (embeddings : list (option vector)) : nat :=
  match n, embeddings with
  | S n', Some _ :: r => S (present n' r)
  | S n', None :: r => present n' r
  | _, _ => O
  end.

(** Rows in the order of [ORDER BY distance]. *)
Definition by_distance (a b : float8 * ChunkRow) : Prop :=
  ChunkStore.float8_le (fst a) (fst b) = true.

(** A similarity that is a number, strictly greater than the
    threshold. *)
Definition above (threshold : Q) (s : float8) : Prop :=
  match s with
  | Finite q => (threshold < q)%Q
  | NaN => False
  end.

(** What [> threshold] lets through: a greater number, and NaN. *)
Definition passes (threshold : Q) (s : float8) : Prop :=
  match s with
  | Finite q => (threshold < q)%Q
  | NaN => True
  end.

(** Similarities in descending order, as numbers: no NaN among them. *)
Definition descending (l : list float8) : Prop :=
  StronglySorted
    (fun a b =>
       match a, b with
       | Finite x, Finite y => (y <= x)%Q
       | _, _ => False
       end) l.

(** Similarities in descending order in the order of PostgreSQL, where
    NaN is the greatest. *)
Definition descending_in_postgres (l : list float8) : Prop :=
  StronglySorted (fun a b => ChunkStore.float8_le b a = true) l.

(** Similarities in the order [ORDER BY distance] leaves them in: the
    numbers first, the greatest first, then the NaN ones. *)
Definition numbers_then_NaN (a b : float8) : Prop :=
  match a, b with
  | Finite x, Finite y => (y <= x)%Q
  | _, NaN => True
  | NaN, Finite _ => False
  end.

(** Rows in the order of similarity, the greatest first, those whose
    similarity is NaN last. *)
Definition by_similarity (a b : ChunkStore.MatchRow) : Prop :=
  numbers_then_NaN (ChunkStore.similarity a) (ChunkStore.similarity b).

End Observations.

(* ================================================================== *)
(** ** Scenarios *)
(* ================================================================== *)

Module Scenarios.

Import RagPipelineChunker.

Definition three_paragraphs : jsstring :=
  js "alpha" ++ [LF; LF] ++ js "beta" ++ [LF; LF] ++ js "gamma".

Definition small_chunks : Options := mkOptions (Some 8) (Some 5) None.

(** The dimension of the [embedding] columns. *)
Definition dimensions : nat := 768.

Definition pad (v : vector) : vector :=
  v ++ repeat 0%Q (dimensions - List.length v).

Definition unit_x : vector := pad [1; 0]%Q.
Definition unit_y : vector := pad [0; 1]%Q.
Definition unit_xy : vector := pad [3 # 5; 4 # 5]%Q.
Definition zero_vector : vector := pad [].

Fixpoint dot (a b : vector) : Q :=
  match a, b with
  | x :: a', y :: b' => x * y + dot a' b'
  | _, _ => 0
  end.

(** The cosine distance of vectors of norm 1 or 0: NaN when one of
    them is the zero vector. *)
Definition unit_distance (a b : vector) : float8 :=
  if forallb (fun x => Qeq_bool x 0) a || forallb (fun x => Qeq_bool x 0) b
  then NaN
  else Finite (Qred (1 - dot a b)).

(** The plan that reads every row. *)
Definition sequential_scan (query_embedding : vector) (r : ChunkRow)
    : bool := true.

(** An endpoint that answers every call but those whose number is in
    [down]. *)
Definition endpoint (down : list nat) (n : nat) (text : jsstring)
    : FetchOutcome :=
  if existsb (Nat.eqb n) down
  then NetworkError (js "fetch failed")
  else HttpOk (Parsed (Some (Some unit_x))).

(** A deployment with its keys in place ([key] being the Gemini one), an
    embedding endpoint that is down for the calls in [down], and an RPC
    that answers with [rpc] as its error. *)
Definition deployment (key : option jsstring) (down : list nat)
    (rpc : option jsstring) : Env :=
  mkEnv key
        (Some (js "https://aionus.supabase.co"))
        (Some (js "service-role-key"))
        (Some (js "anon-key"))
        (endpoint down)
        unit_distance
        sequential_scan
        (fun _ _ _ => rpc)
        (fun _ _ => None)
        (fun _ _ => Inserted)
        (fun _ _ => None)
        true
        (fun b => inl b)
        (fun b => inl b).

Definition key : option jsstring := Some (js "AIza-key").
Definition no_function : option jsstring :=
  Some (js "Could not find the function match_documents").

Definition stored : list ChunkRow :=
  [ mkChunkRow 0 (js "doc-1") (js "Two bedroom flats") (Some unit_y)
      (js "brochure");
    mkChunkRow 1 (js "doc-1") (js "Payment plan") (Some unit_x)
      (js "brochure");
    mkChunkRow 2 (js "doc-2") (js "Refund policy") (Some unit_xy)
      (js "faq");
    mkChunkRow 3 (js "doc-2") (js "Not embedded") None (js "faq") ].

(** The same table, with a chunk whose embedding is the zero vector. *)
Definition stored_with_zero : list ChunkRow :=
  stored
  ++ [ mkChunkRow 4 (js "doc-3") (js "Blank page") (Some zero_vector)
         (js "scan") ].

Definition empty_state : State := mkState [] [] [].
Definition loaded_state : State := mkState [] stored [].

Definition two_chunks : list Chunk :=
  [ mkChunk 0 (js "intro") 0 5; mkChunk 1 (js "prices") 7 13 ].

End Scenarios.

(* ================================================================== *)
(** ** Invariants of the paragraph loop *)
(* ================================================================== *)

Module Invariants.

Import RagPipelineChunker.

(** A string that holds something else than whitespace. *)
Definition inked (s : jsstring) : Prop :=
  exists c, In c s /\ is_whitespace c = false.

(** What the loop of [chunkDocument] keeps true: the buffer is empty or
    inked, no chunk pushed so far is empty, and the chunks are numbered
    from 0 in the order they were pushed. *)
Definition well_formed (st : LoopState) : Prop :=
  (currentChunk st = [] \/ inked (currentChunk st))
  /\ Forall (fun c => content c <> []) (chunks st)
  /\ chunkIndex st = Z.of_nat (List.length (chunks st))
  /\ forall n c, nth_error (chunks st) n = Some c -> id c = Z.of_nat n.

End Invariants.

(* ================================================================== *)
(** ** The simple search and the RAG route (src/lib/rag.js,
       src/routes/schedule-visit.js, second file) *)
(* ================================================================== *)

Module RagRoute.

Local Open Scope js_scope.

(** The answers of the two reads of [getSimpleContext], as functions of
    the table: [.textSearch('content', q).limit(5)] and
    [.order('created_at', { ascending: false }).limit(5)]. *)
Record Reads := mkReads {
  textSearch : list ChunkRow -> jsstring -> Response (list ChunkRow);
  latest : list ChunkRow -> Response (list ChunkRow)
}.

Definition read_textSearch (R : Reads) (q : jsstring)
    : M State (Response (list ChunkRow)) :=
  fun w => (Ok (textSearch R (document_chunks w) q), w).

Definition read_latest (R : Reads) : M State (Response (list ChunkRow)) :=
  fun w => (Ok (latest R (document_chunks w)), w).

(** [data?.map(d => d.content).join('\n\n') || ''] *)
Definition join_plain (d : option (list ChunkRow)) : jsstring :=
  match d with
  | Some rows => join [LF; LF] (map row_content rows)
  | None => []
  end.

(** [getSimpleContext(query)]; the result has no [source] and no
    [error]. *)
Definition getSimpleContext (R : Reads) (E : Env) (query : jsstring)
    : M State Rag.Context :=
  try_catch
    (_ <- ChunkStore.createServiceClient E ;;
     r <- read_textSearch R
            (join (js " | ") (slice (split query [SPACE]) 0 3)) ;;
     match World.error r with
     | Some _ =>
         l <- read_latest R ;;
         ret (Rag.mkContext (join_plain (data l)) (Rag.count (data l))
                None None)
     | None =>
         ret (Rag.mkContext (join_plain (data r)) (Rag.count (data r))
                None None)
     end)
    (fun _ => ret (Rag.mkContext [] 0 None None)).

(** [req.query.query]: absent, a string, or something else (an array or
    an object, which are truthy and have no [trim]). *)
Inductive QueryParam :=
| Absent
| Text (query : jsstring)
| NotText.

(** The JSON body of an answer; an absent field is [None]. *)
Record Body := mkBody {
  body_context : jsstring;
  body_chunks : option Z;
  body_source : option jsstring;
  body_error : option jsstring
}.

Record HttpResponse := mkHttp {
  status : Z;
  body : Body
}.

(** [result.source || 'unknown'] *)
Definition source_name (s : option Rag.Source) : jsstring :=
  match s with
  | Some Rag.vector_search => js "vector_search"
  | Some Rag.fallback => js "fallback"
  | None => js "unknown"
  end.

(** [router.get('/', ...)]: GET /api/rag?query=... *)
Definition ragRoute (R : Reads) (E : Env) (q : QueryParam)
    : M State HttpResponse :=
  let bad_request :=
    ret (mkHttp 400
           (mkBody [] None None (Some (js "Query parameter is required")))) in
  try_catch
    (match q with
     | Absent => bad_request
     | NotText => throw (js "query.trim is not a function")
     | Text query =>
         if negb (truthy query) || negb (truthy (trim query)) then bad_request
         else
           result <- try_catch (Rag.retrieveContext E query None)
                       (fun _ => getSimpleContext R E query) ;;
           ret (mkHttp 200
                  (mkBody (Rag.context result) (Some (Rag.chunks result))
                     (Some (source_name (Rag.source result))) None))
     end)
    (fun message => ret (mkHttp 500 (mkBody [] None None (Some message)))).

End RagRoute.

(* ================================================================== *)
(** ** The environment loader (src/config/env.js) *)
(* ================================================================== *)

Module EnvJs.

(** The own properties of the [ENV] object, in the order of the
    literal. Values are strings. *)
Definition ENV := list (jsstring * jsstring).

Definition initial : ENV :=
  [ (js "SUPABASE_URL", js "");
    (js "SUPABASE_ANON_KEY", js "");
    (js "SUPABASE_SERVICE_ROLE_KEY", js "");
    (js "SUPABASE_BUCKET_NAME", js "brochures");
    (js "GEMINI_API_KEY", js "");
    (js "GEMINI_TTS_MODEL", js "gemini-2.0-flash");
    (js "GEMINI_STT_MODEL", js "gemini-2.0-flash");
    (js "MAPS_API_KEY", js "");
    (js "EMBEDDING_MODEL", js "text-embedding-004") ].

Definition eqb (a b : jsstring) : bool :=
  if list_eq_dec N.eq_dec a b then true else false.

(** The own property [key], if there is one. *)
Fixpoint own (E : ENV) (key : jsstring) : option jsstring :=
  match E with
  | [] => None
  | (k, v) :: r => if eqb k key then Some v else own r key
  end.

(** [ENV.hasOwnProperty(key)] *)
Definition hasOwnProperty (E : ENV) (key : jsstring) : bool :=
  match own E key with Some _ => true | None => false end.

(** [ENV.KEY] read as a condition or a default: an absent property is
    undefined, which counts as ['']. *)
Definition field (E : ENV) (key : jsstring) : jsstring :=
  match own E key with Some v => v | None => [] end.

(** [ENV[key] = value]: the property is changed in place, or added. *)
Fixpoint put (E : ENV) (key value : jsstring) : ENV :=
  match E with
  | [] => [(key, value)]
  | (k, v) :: r =>
      if eqb k key then (k, value) :: r else (k, v) :: put r key value
  end.

(** The properties every object inherits from [Object.prototype]; all
    of them are truthy. *)
Definition object_prototype : list jsstring :=
  map js
    [ "constructor"; "__defineGetter__"; "__defineSetter__";
      "hasOwnProperty"; "__lookupGetter__"; "__lookupSetter__";
      "isPrototypeOf"; "propertyIsEnumerable"; "toString"; "valueOf";
      "__proto__"; "toLocaleString" ]%string.

(** What [getEnv] can return: a string, or an inherited property. *)
Inductive Value :=
| Str (s : jsstring)
| Inherited (name : jsstring).

(** [getEnv(key)]: [ENV[key] || ''] *)
Definition getEnv (E : ENV) (key : jsstring) : Value :=
  match own E key with
  | Some v => Str v
  | None =>
      if existsb (eqb key) object_prototype then Inherited key else Str []
  end.

(** [setEnv(key, value)] *)
Definition setEnv (E : ENV) (key value : jsstring) : ENV :=
  if hasOwnProperty E key then put E key value else E.

(** [isConfigured(service)] *)
Definition isConfigured (E : ENV) (service : jsstring) : bool :=
  if eqb service (js "supabase") then
    truthy (field E (js "SUPABASE_URL"))
    && truthy (field E (js "SUPABASE_ANON_KEY"))
  else if eqb service (js "gemini") then
    truthy (field E (js "GEMINI_API_KEY"))
  else if eqb service (js "maps") then
    truthy (field E (js "MAPS_API_KEY"))
  else false.

(** [validateEnv()]: the keys it warns about, and whether there was no
    warning. *)
Definition warnings (E : ENV) : list jsstring :=
  filter (fun key => negb (truthy (field E key)))
    [ js "GEMINI_API_KEY"; js "SUPABASE_URL"; js "SUPABASE_ANON_KEY";
      js "MAPS_API_KEY" ].

Definition validateEnv (E : ENV) : bool :=
  match warnings E with [] => true | _ => false end.

(** A source of settings: [process.env] or [import.meta.env]. *)
Definition Settings := jsstring -> option jsstring.

(** [ENV.KEY = source.NAME || ENV.KEY] *)
Definition load_key (source : Settings) (E : ENV)
    (name_key : jsstring * jsstring) : ENV :=
  let (name, key) := name_key in
  put E key
    (match source name with
     | Some v => if truthy v then v else field E key
     | None => field E key
     end).

Definition process_names : list (jsstring * jsstring) :=
  map (fun k => (js k, js k))
    [ "SUPABASE_URL"; "SUPABASE_ANON_KEY"; "SUPABASE_SERVICE_ROLE_KEY";
      "SUPABASE_BUCKET_NAME"; "GEMINI_API_KEY"; "GEMINI_TTS_MODEL";
      "GEMINI_STT_MODEL"; "MAPS_API_KEY"; "EMBEDDING_MODEL" ]%string.

Definition vite_names : list (jsstring * jsstring) :=
  [ (js "VITE_SUPABASE_URL", js "SUPABASE_URL");
    (js "VITE_SUPABASE_ANON_KEY", js "SUPABASE_ANON_KEY");
    (js "VITE_SUPABASE_SERVICE_ROLE_KEY", js "SUPABASE_SERVICE_ROLE_KEY");
    (js "VITE_GEMINI_API_KEY", js "GEMINI_API_KEY");
    (js "VITE_MAPS_API_KEY", js "MAPS_API_KEY") ].

(** [loadEnv()]; a source that is not there ([process] undefined, no
    [import.meta.env]) is [None]. *)
Definition loadEnv (process_env import_meta_env : option Settings)
    (E : ENV) : ENV :=
  let E1 :=
    match process_env with
    | Some source => fold_left (load_key source) process_names E
    | None => E
    end in
  match import_meta_env with
  | Some source => fold_left (load_key source) vite_names E1
  | None => E1
  end.

End EnvJs.

(* ================================================================== *)
(** ** Similarity search of the browser library
       ([match_embeddings] of src/unnamed/part_008, [searchSimilar] and
       [queryEmbeddings] of src/unnamed/part_002) *)
(* ================================================================== *)

Module Similarity.

Local Open Scope js_scope.

(** A row of the table [match_embeddings] returns. The [id] column,
    which the model of the [embeddings] table does not carry, is left
    out. *)
Record Match := mkMatch {
  document_id : jsstring;
  content : jsstring;
  similarity : float8
}.

(** [embeddings.embedding <=> query_embedding]: NULL ([None]) when the
    embedding or the query vector is, an error on vectors of different
    dimensions. *)
Definition distance (cd : vector -> vector -> float8)
    (query_embedding : option vector) (r : EmbeddingRow)
    : option (ChunkStore.Sql float8) :=
  match erow_embedding r, query_embedding with
  | Some e, Some q =>
      Some (if Nat.eqb (List.length e) (List.length q)
            then inr (cd e q)
            else inl (js "different vector dimensions"))
  | _, _ => None
  end.

(** [filter_document_id IS NULL OR document_id = filter_document_id] *)
Definition filter_clause (filter_document_id : option jsstring)
    (r : EmbeddingRow) : bool :=
  match filter_document_id with
  | None => true
  | Some d => EnvJs.eqb (World.document_id r) d
  end.

(** [WHERE 1 - (embedding <=> query_embedding) > match_threshold AND
    (filter_document_id IS NULL OR document_id = filter_document_id)];
    a NULL first condition rejects the row. SQL leaves open which
    condition is looked at first; the two are taken in the order of the
    text, so that the dimension error is raised whenever some order
    raises it. *)
Fixpoint where_clause (cd : vector -> vector -> float8)
    (query_embedding : option vector) (match_threshold : float8)
    (filter_document_id : option jsstring) (table : list EmbeddingRow)
    : ChunkStore.Sql (list (float8 * EmbeddingRow)) :=
  match table with
  | [] => inr []
  | r :: rest =>
      match distance cd query_embedding r with
      | None =>
          where_clause cd query_embedding match_threshold filter_document_id
            rest
      | Some (inl e) => inl e
      | Some (inr d) =>
          match where_clause cd query_embedding match_threshold
                  filter_document_id rest with
          | inl e => inl e
          | inr passed =>
              inr (if ChunkStore.float8_gt (ChunkStore.one_minus d)
                        match_threshold
                      && filter_clause filter_document_id r
                   then (d, r) :: passed else passed)
          end
      end
  end.

Fixpoint insert_by_distance (x : float8 * EmbeddingRow)
    (l : list (float8 * EmbeddingRow)) : list (float8 * EmbeddingRow) :=
  match l with
  | [] => [x]
  | y :: r =>
      if ChunkStore.float8_le (fst x) (fst y) then x :: l
      else y :: insert_by_distance x r
  end.

(** [ORDER BY embeddings.embedding <=> query_embedding] *)
Definition order_by_distance (l : list (float8 * EmbeddingRow))
    : list (float8 * EmbeddingRow) :=
  fold_right insert_by_distance [] l.

Definition select_row (x : float8 * EmbeddingRow) : Match :=
  mkMatch (World.document_id (snd x)) (erow_content (snd x))
          (ChunkStore.one_minus (fst x)).

(** [match_embeddings(query_embedding, match_threshold, match_count,
    filter_document_id)]. The [embeddings] table has no vector index:
    every row is read. [match_count] is an [int]; a vector has at least
    one dimension; a negative LIMIT is refused before a row is read,
    and no row is read for [LIMIT 0]. *)
Definition match_embeddings (cd : vector -> vector -> float8)
    (table : list EmbeddingRow) (query_embedding : option vector)
    (match_threshold : float8) (match_count : Z)
    (filter_document_id : option jsstring)
    : ChunkStore.Sql (list Match) :=
  if negb (ChunkStore.is_int4 match_count) then
    inl (js "value out of range for type integer")
  else
    match query_embedding with
    | Some [] => inl (js "vector must have at least 1 dimension")
    | _ =>
        if match_count <? 0 then inl (js "LIMIT must not be negative")
        else if match_count =? 0 then inr []
        else
          match where_clause cd query_embedding match_threshold
                  filter_document_id table with
          | inl e => inl e
          | inr passed =>
              inr (map select_row
                     (firstn (Z.to_nat match_count)
                        (order_by_distance passed)))
          end
    end.

(** An RPC that the server cannot run, whatever the reason. *)
Definition RpcFailure :=
  option vector -> Q -> Z -> option jsstring -> option jsstring.

(** [client.rpc('match_embeddings', {...})] *)
Definition rpc_match_embeddings (F : RpcFailure) (E : Env)
    (query_embedding : option vector) (match_threshold : Q) (match_count : Z)
    (filter_document_id : option jsstring)
    : M State (Response (list Match)) :=
  fun w =>
    match F query_embedding match_threshold match_count filter_document_id with
    | Some e => (Ok (mkResponse None (Some e)), w)
    | None =>
        match match_embeddings (cosine_distance E) (World.embeddings w)
                query_embedding (Finite match_threshold) match_count
                filter_document_id with
        | inr rows => (Ok (mkResponse (Some rows) None), w)
        | inl e => (Ok (mkResponse None (Some e)), w)
        end
    end.

(** The [options] of [searchSimilar]; an absent field is [None]. *)
Record Options := mkOptions {
  topK : option Z;
  threshold : option Q;
  documentId : option jsstring
}.

(** [options.threshold || 0.7]: absent and 0 both give 0.7. *)
Definition threshold_or (o : option Q) (dflt : Q) : Q :=
  match o with
  | Some t => if Qeq_bool t 0 then dflt else t
  | None => dflt
  end.

(** [documentId || null]: absent and [''] both give null. *)
Definition filter_of (o : option jsstring) : option jsstring :=
  match o with
  | Some d => if truthy d then Some d else None
  | None => None
  end.

(** [{ results, error }] *)
Record Found := mkFound {
  results : list Match;
  error : option jsstring
}.

(** [searchSimilar(query, options)] *)
Definition searchSimilar (F : RpcFailure) (E : Env) (query : jsstring)
    (options : Options) : M State Found :=
  let topK := RagPipelineChunker.num_or (topK options) 5 in
  let threshold := threshold_or (threshold options) (7 # 10) in
  if negb (isConfigured_supabase E) || negb (isConfigured_gemini E) then
    ret (mkFound [] (Some (js "Services not configured")))
  else
    try_catch
      (r <- GeminiClient.generateEmbedding E query ;;
       if match GeminiClient.error r with
          | Some embError => truthy embError
          | None => false
          end
       then
         throw (js "Embedding error: "
                  ++ match GeminiClient.error r with
                     | Some embError => embError
                     | None => []
                     end)
       else if negb (ChunkStore.getSupabase E) then
         throw (js "Supabase client not available")
       else
         a <- rpc_match_embeddings F E (GeminiClient.embedding r) threshold
                topK (filter_of (documentId options)) ;;
         match World.error a with
         | Some e => throw e
         | None =>
             ret (mkFound (match data a with Some rows => rows | None => [] end)
                    None)
         end)
      (fun message => ret (mkFound [] (Some message))).

(** [queryEmbeddings(query, limit = 5)] *)
Definition queryEmbeddings (F : RpcFailure) (E : Env) (query : jsstring)
    (limit : option Z) : M State Found :=
  searchSimilar F E query
    (mkOptions (Some (match limit with Some l => l | None => 5 end))
       None None).

(** A row returned is made from a row of the table that has an
    embedding, and its similarity is 1 minus the distance of that
    embedding to the query vector. *)
Definition selected (cd : vector -> vector -> float8)
    (table : list EmbeddingRow) (query_embedding : option vector)
    (r : Match) : Prop :=
  exists row e v,
    In row table /\ erow_embedding row = Some e /\ query_embedding = Some v
    /\ document_id r = World.document_id row
    /\ content r = erow_content row
    /\ similarity r = ChunkStore.one_minus (cd e v).

(** Rows in the order of [ORDER BY distance]. *)
Definition nearer (a b : float8 * EmbeddingRow) : Prop :=
  ChunkStore.float8_le (fst a) (fst b) = true.

(** Rows in the order of similarity, the greatest first, those whose
    similarity is NaN last. *)
Definition more_similar (a b : Match) : Prop :=
  Observations.numbers_then_NaN (similarity a) (similarity b).

End Similarity.

(* ================================================================== *)
(** ** The create-lead flow (src/unnamed/part_001, second file) *)
(* ================================================================== *)

Module CreateLead.

Local Open Scope js_scope.

(** The values a field of the payload can hold. *)
Inductive JsValue :=
| VUndefined
| VNull
| VBool (b : bool)
| VNumber (x : Q)
| VNaN
| VString (s : jsstring)
| VObject.

Definition js_truthy (v : JsValue) : bool :=
  match v with
  | VUndefined | VNull | VNaN => false
  | VBool b => b
  | VNumber x => negb (Qeq_bool x 0)
  | VString s => truthy s
  | VObject => true
  end.

Record Payload := mkPayload {
  name : JsValue;
  phone : JsValue;
  budget : JsValue;
  requirement : JsValue;
  site_visit_requested : JsValue;
  site_visit_datetime : JsValue
}.

(** The argument of [createLead]: an object, or anything else (null,
    undefined, a string, a number ...). *)
Inductive Argument :=
| NotAnObject
| Object (p : Payload).

(** [{ valid, error }] *)
Record Validation := mkValidation {
  valid : bool;
  validation_error : option jsstring
}.

Definition invalid (message : string) : Validation :=
  mkValidation false (Some (js message)).

(** [!v || typeof v !== 'string' || v.trim() === ''] *)
Definition not_a_filled_string (v : JsValue) : bool :=
  match v with
  | VString s => negb (truthy s) || negb (truthy (trim s))
  | _ => true
  end.

(** [v !== undefined && v !== null && typeof v !== 'string'] *)
Definition not_an_optional_string (v : JsValue) : bool :=
  match v with
  | VUndefined | VNull | VString _ => false
  | _ => true
  end.

(** [validatePayload(payload)]; [valid_date v] tells whether
    [new Date(v)] is a valid date. *)
Definition validatePayload (valid_date : JsValue -> bool) (a : Argument)
    : Validation :=
  match a with
  | NotAnObject => invalid "Invalid payload: must be an object"
  | Object p =>
      if not_a_filled_string (name p) then
        invalid "Name is required and must be a non-empty string"
      else if not_a_filled_string (phone p) then
        invalid "Phone is required and must be a non-empty string"
      else if not_an_optional_string (budget p) then
        invalid "Budget must be a string if provided"
      else if not_an_optional_string (requirement p) then
        invalid "Requirement must be a string if provided"
      else if match site_visit_requested p with
              | VUndefined | VBool _ => false
              | _ => true
              end then
        invalid "site_visit_requested must be a boolean if provided"
      else if match site_visit_datetime p with
              | VUndefined | VNull => false
              | v => negb (valid_date v)
              end then
        invalid "site_visit_datetime must be a valid ISO date string"
      else mkValidation true None
  end.

(** A row of [leads], as [createLead] writes it. *)
Record Lead := mkLead {
  lead_name : jsstring;
  lead_phone : jsstring;
  lead_budget : option jsstring;
  lead_requirement : option jsstring;
  lead_source : jsstring;
  lead_site_visit_requested : bool;
  lead_site_visit_datetime : option JsValue
}.

(** What the insert does: stores the row and answers with its id,
    answers with an error, or throws. *)
Inductive LeadInsert :=
| Created (lead_id : jsstring)
| Failed (message : jsstring)
| Crashed (message : jsstring).

Definition Database := list Lead -> Lead -> LeadInsert.

(** [validateEnvironment()] *)
Definition validateEnvironment (E : Env) : M (list Lead) unit :=
  let missing :=
    (if is_set (SUPABASE_URL E) then [] else [js "SUPABASE_URL"])
    ++ (if is_set (SUPABASE_SERVICE_ROLE_KEY E) then []
        else [js "SUPABASE_SERVICE_ROLE_KEY"]) in
  match missing with
  | [] => ret tt
  | _ =>
      throw (js "Missing required environment variables: "
               ++ join (js ", ") missing)
  end.

(** [v.trim()] on a field that passed validation as a string. *)
Definition text_of (v : JsValue) : jsstring :=
  match v with VString s => trim s | _ => [] end.

(** [v?.trim() || null] *)
Definition optional_text (v : JsValue) : option jsstring :=
  match v with
  | VString s => if truthy (trim s) then Some (trim s) else None
  | _ => None
  end.

(** [{ success, lead_id, error }] *)
Record Outcome := mkOutcome {
  success : bool;
  lead_id : option jsstring;
  error : option jsstring
}.

(** [error.message || 'Unknown error occurred'] *)
Definition message_or_unknown (m : jsstring) : jsstring :=
  if truthy m then m else js "Unknown error occurred".

(** [createLead(payload)] *)
Definition createLead (valid_date : JsValue -> bool) (D : Database)
    (E : Env) (a : Argument) : M (list Lead) Outcome :=
  try_catch
    (let validation := validatePayload valid_date a in
     if negb (valid validation) then
       ret (mkOutcome false None (validation_error validation))
     else
       match a with
       | NotAnObject =>
           throw (js "Cannot read properties of undefined (reading 'name')")
       | Object p =>
           _ <- validateEnvironment E ;;
           let leadData :=
             mkLead (text_of (name p)) (text_of (phone p))
               (optional_text (budget p)) (optional_text (requirement p))
               (js "website_chat")
               (match site_visit_requested p with
                | VBool b => b
                | _ => false
                end)
               (if js_truthy (site_visit_datetime p)
                then Some (site_visit_datetime p) else None) in
           fun leads =>
             match D leads leadData with
             | Created i =>
                 (Ok (mkOutcome true (Some i) None), leads ++ [leadData])
             | Failed m =>
                 (Ok (mkOutcome false None
                        (Some (js "Database insert failed: " ++ m))), leads)
             | Crashed m => (Throw m, leads)
             end
       end)
    (fun message =>
       ret (mkOutcome false None (Some (message_or_unknown message)))).

End CreateLead.

(* ================================================================== *)
(** * Properties *)
(* ================================================================== *)

(** ** Strings *)

Module JsStringFacts.

Import Observations.

Lemma replace_runs_length (p : char -> bool) (rep : char) (s : jsstring) :
  forall in_run,
    (List.length (replace_runs p rep in_run s) <= List.length s)%nat.
Proof.
  induction s as [|c r IH]; intros in_run; simpl.
  - lia.
  - destruct (p c).
    + destruct in_run; simpl; specialize (IH true); lia.
    + simpl. specialize (IH false). lia.
Qed.

Lemma replace_runs_members (p : char -> bool) (rep : char) (s : jsstring) :
  forall in_run x,
    In x (replace_runs p rep in_run s) -> x = rep \/ (p x = false /\ In x s).
Proof.
  induction s as [|c r IH]; intros in_run x; simpl.
  - intros [].
  - destruct (p c) eqn:Hc.
    + destruct in_run; simpl.
      * intros H. destruct (IH _ _ H) as [->|[? ?]]; auto.
      * intros [<-|H]; auto. destruct (IH _ _ H) as [->|[? ?]]; auto.
    + simpl. intros [<-|H]; auto.
      destruct (IH _ _ H) as [->|[? ?]]; auto.
Qed.

(** A replacement leaves a string without any match as it is. *)
Lemma replace_runs_no_match (p : char -> bool) (rep : char) (s : jsstring) :
  (forall x, In x s -> p x = false) ->
  forall in_run, replace_runs p rep in_run s = s.
Proof.
  induction s as [|c r IH]; intros H in_run; simpl.
  - reflexivity.
  - rewrite (H c (or_introl eq_refl)). f_equal.
    apply IH. intros x Hx. apply H. now right.
Qed.

Lemma trimStart_suffix (s : jsstring) :
  exists pre, s = pre ++ trimStart s.
Proof.
  induction s as [|c r [pre IH]]; simpl.
  - now exists [].
  - destruct (is_whitespace c).
    + exists (c :: pre). simpl. now f_equal.
    + now exists [].
Qed.

Lemma trimStart_length (s : jsstring) :
  (List.length (trimStart s) <= List.length s)%nat.
Proof.
  destruct (trimStart_suffix s) as [pre H].
  rewrite H at 2. rewrite length_app. lia.
Qed.

Lemma trimStart_members (s : jsstring) x : In x (trimStart s) -> In x s.
Proof.
  destruct (trimStart_suffix s) as [pre H]. intros Hx.
  rewrite H. apply in_or_app. now right.
Qed.

Lemma trim_length (s : jsstring) :
  (List.length (trim s) <= List.length s)%nat.
Proof.
  unfold trim, trimEnd. rewrite length_rev.
  etransitivity; [apply trimStart_length|]. rewrite length_rev.
  apply trimStart_length.
Qed.

Lemma trim_members (s : jsstring) x : In x (trim s) -> In x s.
Proof.
  unfold trim, trimEnd. intros H.
  apply in_rev in H. apply trimStart_members in H. apply in_rev in H.
  now apply trimStart_members.
Qed.

Lemma trimStart_starts_clean (s : jsstring) : starts_clean (trimStart s).
Proof.
  induction s as [|c r IH]; simpl; [exact I|].
  destruct (is_whitespace c) eqn:Hc; [exact IH|exact Hc].
Qed.

Lemma trimEnd_prefix (s : jsstring) : exists suf, s = trimEnd s ++ suf.
Proof.
  unfold trimEnd. destruct (trimStart_suffix (rev s)) as [pre H].
  exists (rev pre). rewrite <- rev_app_distr, <- H. now rewrite rev_involutive.
Qed.

Lemma trim_trimmed (s : jsstring) : trimmed (trim s).
Proof.
  unfold trimmed, trim. split.
  - pose proof (trimStart_starts_clean s) as Hs.
    destruct (trimEnd_prefix (trimStart s)) as [suf H].
    destruct (trimEnd (trimStart s)) as [|c p]; [exact I|].
    rewrite H in Hs. exact Hs.
  - unfold trimEnd. rewrite rev_involutive. apply trimStart_starts_clean.
Qed.

Lemma single_spaced_app (a b : jsstring) :
  single_spaced (a ++ b) -> single_spaced a /\ single_spaced b.
Proof.
  induction a as [|x a IH]; simpl; [auto|].
  intros [Hx Hr]. destruct (IH Hr) as [Ha Hb]. repeat split; auto.
  destruct a; [exact I|exact Hx].
Qed.

Lemma trim_single_spaced (s : jsstring) :
  single_spaced s -> single_spaced (trim s).
Proof.
  intros H. unfold trim.
  destruct (trimStart_suffix s) as [pre Hp]. rewrite Hp in H.
  apply single_spaced_app in H. destruct H as [_ H].
  destruct (trimEnd_prefix (trimStart s)) as [suf Hs]. rewrite Hs in H.
  now apply single_spaced_app in H.
Qed.

(** After [replace(/\s+/g, ' ')] no two whitespace characters are
    adjacent; inside a run, what follows starts with something else. *)
Lemma replace_whitespace_single_spaced (s : jsstring) :
  forall in_run,
    single_spaced (replace_runs is_whitespace SPACE in_run s)
    /\ (in_run = true ->
        starts_clean (replace_runs is_whitespace SPACE in_run s)).
Proof.
  induction s as [|c r IH]; intros in_run; simpl; [auto|].
  destruct (is_whitespace c) eqn:Hc.
  - destruct (IH true) as [Hs Hh]. specialize (Hh eq_refl).
    destruct in_run; [auto|]. split; [|discriminate].
    simpl. split; [|exact Hs].
    destruct (replace_runs is_whitespace SPACE true r); [exact I|].
    simpl in Hh. rewrite Hh. reflexivity.
  - destruct (IH false) as [Hs _]. split; [|intros _; exact Hc].
    simpl. split; [|exact Hs].
    destruct (replace_runs is_whitespace SPACE false r); [exact I|].
    now rewrite Hc.
Qed.

End JsStringFacts.

(** ** The text normalizer and the sliding-window chunker *)

Module ProcessDocumentChunkerFacts.

Import Observations JsStringFacts ProcessDocumentChunker.

(** The first replacement turns every newline into a space, so the
    cleaned text holds no newline at all. *)
Lemma cleanText_no_newline (text : jsstring) : ~ In LF (cleanText text).
Proof.
  unfold cleanText. intros H. apply trim_members in H.
  assert (Hno : forall x,
             In x (replace_runs is_whitespace SPACE false text) ->
             is_newline x = false).
  { intros x Hx. apply replace_runs_members in Hx.
    destruct Hx as [->|[Hws _]]; [reflexivity|].
    unfold is_newline. destruct (N.eqb_spec x LF) as [->|]; [|reflexivity].
    discriminate Hws. }
  rewrite (replace_runs_no_match _ _ _ Hno) in H.
  apply Hno in H. discriminate H.
Qed.

(** The second replacement, [/\n+/g], never changes anything. *)
Lemma cleanText_second_replace_idle (text : jsstring) :
  cleanText text = trim (replace_runs is_whitespace SPACE false text).
Proof.
  unfold cleanText. f_equal. apply replace_runs_no_match.
  intros x Hx. apply replace_runs_members in Hx.
  destruct Hx as [->|[Hws _]]; [reflexivity|].
  unfold is_newline. destruct (N.eqb_spec x LF) as [->|]; [|reflexivity].
  discriminate Hws.
Qed.

(** The only whitespace left in the cleaned text is the space. *)
Lemma cleanText_whitespace_is_space (text : jsstring) x :
  In x (cleanText text) -> is_whitespace x = true -> x = SPACE.
Proof.
  rewrite cleanText_second_replace_idle. intros H Hws.
  apply trim_members, replace_runs_members in H.
  destruct H as [->|[Hn _]]; [reflexivity|congruence].
Qed.

(** The parts of the normalizer that do what is said of them: runs of
    whitespace are collapsed, and the result is trimmed. *)
Lemma cleanText_single_spaced_trimmed (text : jsstring) :
  single_spaced (cleanText text) /\ trimmed (cleanText text).
Proof.
  rewrite cleanText_second_replace_idle. split.
  - apply trim_single_spaced, replace_whitespace_single_spaced.
  - apply trim_trimmed.
Qed.

Lemma cleanText_length (text : jsstring) :
  length (cleanText text) <= length text.
Proof.
  unfold length, cleanText. apply inj_le.
  etransitivity; [apply trim_length|].
  etransitivity; apply replace_runs_length.
Qed.

(** C8: the normalizer is claimed to keep the newlines of its input, each
    run collapsed to one newline. It does not: at the input ["a\nb"] the
    newline comes out as a space. *)
Theorem cleanText_newline_becomes_space :
  cleanText (js "a" ++ [LF] ++ js "b") = js "a b".
Proof. reflexivity. Qed.

Lemma splitIntoChunks_short fuel text chunkSize overlap :
  length (cleanText text) <= chunkSize ->
  splitIntoChunks fuel text chunkSize overlap = Some [cleanText text].
Proof.
  intros H. unfold splitIntoChunks.
  destruct (Z.leb_spec (length (cleanText text)) chunkSize); [reflexivity|lia].
Qed.

(** C6, as amended: a text of length at most [chunkSize] whose cleaned
    form is not empty gives exactly one chunk, the cleaned text
    (whitespace runs collapsed to one space, then trimmed). *)
Theorem splitIntoChunks_short_text fuel text chunkSize overlap :
  length text <= chunkSize ->
  cleanText text <> [] ->
  splitIntoChunks fuel text chunkSize overlap = Some [cleanText text].
Proof.
  intros Hlen _. apply splitIntoChunks_short.
  pose proof (cleanText_length text). lia.
Qed.

Lemma splitIntoChunks_short_text_witness :
  splitIntoChunks 0 (js "a  b") 900 100 = Some [js "a b"].
Proof.
  apply (splitIntoChunks_short_text 0 (js "a  b") 900 100).
  - vm_compute. discriminate.
  - vm_compute. discriminate.
Defined.

(** C6 as stated fails twice: the empty input gives one (empty) chunk,
    not the empty sequence; and the single chunk of a short input is the
    cleaned text, which is not the trimmed input when the input holds a
    run of whitespace. *)
Lemma splitIntoChunks_empty_input_one_chunk :
  splitIntoChunks 0 (js "") CHUNK_SIZE CHUNK_OVERLAP = Some [js ""]
  /\ splitIntoChunks 0 (js "") CHUNK_SIZE CHUNK_OVERLAP <> Some []
  /\ splitIntoChunks 0 (js "a  b") CHUNK_SIZE CHUNK_OVERLAP = Some [js "a b"]
  /\ trim (js "a  b") <> js "a b".
Proof. repeat split; vm_compute; congruence. Qed.

Lemma chunk_loop_S fuel clean chunkSize overlap start chunks :
  chunk_loop (S fuel) clean chunkSize overlap start chunks =
  if start <? length clean then
    let end_ := window_end clean chunkSize start in
    let chunk := trim (slice clean start end_) in
    chunk_loop fuel clean chunkSize overlap (end_ - overlap)
      (if 0 <? length chunk then chunks ++ [chunk] else chunks)
  else Some chunks.
Proof. reflexivity. Qed.

(** Each iteration moves [start] forward by at least [d / 2], for any
    [d <= chunkSize - 2 * overlap + 1]. *)
Lemma window_end_progress clean chunkSize overlap d start :
  1 <= chunkSize ->
  d <= chunkSize - 2 * overlap + 1 ->
  d <= 2 * (window_end clean chunkSize start - overlap - start).
Proof.
  intros Hc Hd. unfold window_end.
  destruct (start + chunkSize <? length clean); [|lia].
  set (bp := Z.max _ _).
  destruct (Z.ltb_spec (2 * start + chunkSize) (2 * bp)); lia.
Qed.

Lemma chunk_loop_terminates clean chunkSize overlap d :
  1 <= chunkSize ->
  1 <= d <= chunkSize - 2 * overlap + 1 ->
  forall n start chunks,
    2 * (length clean - start) <= Z.of_nat n * d ->
    exists r, chunk_loop (S n) clean chunkSize overlap start chunks = Some r.
Proof.
  intros Hc Hd. induction n as [|n IH]; intros start chunks Hn;
    rewrite chunk_loop_S.
  - destruct (Z.ltb_spec start (length clean)); [lia|eauto].
  - destruct (Z.ltb_spec start (length clean)); [|eauto].
    cbv zeta. apply IH.
    pose proof (window_end_progress clean chunkSize overlap d start Hc
                  (proj2 Hd)).
    lia.
Qed.

Lemma splitIntoChunks_ends_within text chunkSize overlap n :
  1 <= chunkSize ->
  2 * overlap <= chunkSize ->
  2 * length (cleanText text) <=
    Z.of_nat n * (chunkSize - 2 * overlap + 1) ->
  exists chunks, splitIntoChunks (S n) text chunkSize overlap = Some chunks.
Proof.
  intros Hc Ho Hn. unfold splitIntoChunks.
  destruct (length (cleanText text) <=? chunkSize); [eauto|].
  apply chunk_loop_terminates with (d := chunkSize - 2 * overlap + 1); lia.
Qed.

(** C3, as amended: when [chunkSize >= 1] and [2 * overlap <= chunkSize]
    the loop ends after at most
    [2 * len / (chunkSize - 2 * overlap + 1) + 1] iterations, which is at
    most [4 * len / chunkSize + 1] when [4 * overlap <= chunkSize]; and
    no configuration is rejected: whatever the overlap, a text whose
    cleaned length is at most [chunkSize] comes back as one chunk. *)
Theorem splitIntoChunks_terminates text chunkSize overlap :
  1 <= chunkSize ->
  2 * overlap <= chunkSize ->
  let len := length (cleanText text) in
  (exists chunks,
      splitIntoChunks
        (S (S (Z.to_nat (2 * len / (chunkSize - 2 * overlap + 1)))))
        text chunkSize overlap = Some chunks)
  /\ (4 * overlap <= chunkSize ->
      exists chunks,
        splitIntoChunks (S (S (Z.to_nat (4 * len / chunkSize))))
          text chunkSize overlap = Some chunks)
  /\ (forall fuel overlap',
        len <= chunkSize ->
        splitIntoChunks fuel text chunkSize overlap' = Some [cleanText text]).
Proof.
  intros Hc Ho len.
  assert (Hlen : 0 <= len) by (unfold len, length; lia).
  repeat split.
  - apply splitIntoChunks_ends_within; try assumption. fold len.
    set (d := chunkSize - 2 * overlap + 1).
    assert (Hd : 0 < d) by (unfold d; lia).
    pose proof (Z.div_pos (2 * len) d ltac:(lia) Hd).
    pose proof (Z.mul_succ_div_gt (2 * len) d Hd).
    rewrite Nat2Z.inj_succ, Z2Nat.id by lia. lia.
  - intros Ho4.
    apply splitIntoChunks_ends_within; try assumption. fold len.
    pose proof (Z.div_pos (4 * len) chunkSize ltac:(lia) ltac:(lia)).
    pose proof (Z.mul_succ_div_gt (4 * len) chunkSize ltac:(lia)).
    rewrite Nat2Z.inj_succ, Z2Nat.id by lia.
    set (q := 4 * len / chunkSize) in *. nia.
  - intros fuel overlap' Hs. now apply splitIntoChunks_short.
Qed.

Lemma splitIntoChunks_terminates_witness :
  exists chunks,
    splitIntoChunks (S (S (Z.to_nat (2 * 17 / (10 - 2 * 5 + 1)))))
      (js "abcdef.ghijklmnop") 10 5 = Some chunks.
Proof.
  exact (proj1 (splitIntoChunks_terminates (js "abcdef.ghijklmnop") 10 5
                  ltac:(lia) ltac:(lia))).
Defined.

(** With [chunkSize = 10] and [overlap = 7] the window that starts at 0
    is cut after the period at index 6, and the next one starts at
    [7 - 7 = 0] again. *)
Lemma chunk_loop_stuck fuel :
  forall chunks,
    chunk_loop fuel (js "abcdef.ghijklmnop") 10 7 0 chunks = None.
Proof.
  induction fuel as [|fuel IH]; intros chunks; [reflexivity|].
  rewrite chunk_loop_S.
  change (0 <? length (js "abcdef.ghijklmnop")) with true. cbv zeta.
  change (window_end (js "abcdef.ghijklmnop") 10 0 - 7) with 0.
  apply IH.
Qed.

(** C3 as stated fails twice: a configuration with
    [overlap < targetSize] on which the loop never ends, and a
    configuration with [overlap >= targetSize] that is accepted. *)
Lemma splitIntoChunks_overlap_7_of_10_loops :
  7 < 10
  /\ ~ (exists fuel chunks,
          splitIntoChunks fuel (js "abcdef.ghijklmnop") 10 7 = Some chunks)
  /\ 5 <= 7
  /\ splitIntoChunks 0 (js "ab") 5 7 = Some [js "ab"].
Proof.
  repeat split; try lia.
  intros (fuel & chunks & H).
  unfold splitIntoChunks in H.
  change (length (cleanText (js "abcdef.ghijklmnop")) <=? 10) with false in H.
  change (cleanText (js "abcdef.ghijklmnop")) with (js "abcdef.ghijklmnop")
    in H.
  cbv zeta in H. rewrite chunk_loop_stuck in H. discriminate H.
Qed.

Lemma lastIndexOf_scan_bound c s :
  forall i pos acc,
    acc <= pos -> lastIndexOf_scan c s i pos acc <= pos.
Proof.
  induction s as [|x r IH]; intros i pos acc H; simpl; [assumption|].
  apply IH.
  destruct ((x =? c)%N); simpl; [|assumption].
  destruct (Z.leb_spec i pos); lia.
Qed.

Lemma lastIndexOf_bound c s pos : lastIndexOf c s pos <= Z.max pos 0.
Proof. unfold lastIndexOf. apply lastIndexOf_scan_bound. lia. Qed.

(** With [overlap >= chunkSize] nothing is rejected, and a text longer
    than [chunkSize] keeps the loop running for ever. *)
Lemma chunk_loop_diverges clean chunkSize overlap :
  1 <= chunkSize <= overlap ->
  chunkSize < length clean ->
  forall fuel start chunks,
    start < length clean ->
    chunk_loop fuel clean chunkSize overlap start chunks = None.
Proof.
  intros Hc Hlen. induction fuel as [|fuel IH]; intros start chunks Hs;
    [reflexivity|].
  rewrite chunk_loop_S.
  destruct (Z.ltb_spec start (length clean)); [|lia].
  cbv zeta. apply IH.
  unfold window_end.
  destruct (Z.ltb_spec (start + chunkSize) (length clean)); [|lia].
  pose proof (lastIndexOf_bound DOT clean (start + chunkSize)).
  pose proof (lastIndexOf_bound LF clean (start + chunkSize)).
  set (bp := Z.max (lastIndexOf DOT clean (start + chunkSize))
                   (lastIndexOf LF clean (start + chunkSize))).
  destruct (Z.ltb_spec (2 * start + chunkSize) (2 * bp)); lia.
Qed.

(** X4: with [overlap >= chunkSize >= 1] and a cleaned text longer
    than [chunkSize], [splitIntoChunks] never returns: the loop is still
    running whatever the fuel. *)
Lemma splitIntoChunks_diverges text chunkSize overlap fuel :
  1 <= chunkSize <= overlap ->
  chunkSize < length (cleanText text) ->
  splitIntoChunks fuel text chunkSize overlap = None.
Proof.
  intros Hc Hlen. unfold splitIntoChunks.
  destruct (Z.leb_spec (length (cleanText text)) chunkSize); [lia|].
  apply chunk_loop_diverges; lia.
Qed.

End ProcessDocumentChunkerFacts.

(** ** The paragraph-aggregating chunker *)

Module RagPipelineChunkerFacts.

Import RagPipelineChunker Scenarios.

(** C7: the offsets of a chunk are claimed to satisfy
    [0 <= charStart <= charEnd <= len(text)]. Once a chunk has been
    flushed, the buffer is rebuilt from overlap words, a space and the
    next paragraph; that string does not occur in the text, [indexOf]
    answers -1, and the second and third chunk of three short
    paragraphs get [charStart = -1]. *)
Theorem chunkDocument_charStart_negative :
  map (fun c => (content c, charStart c, charEnd c))
      (chunkDocument three_paragraphs small_chunks)
  = [ (js "alpha", 0, 5);
      (js "alpha beta", -1, 9);
      (js "beta gamma", -1, 9) ].
Proof. reflexivity. Qed.

(** The same with the default options, on a text of three paragraphs of
    600 characters. *)
Lemma chunkDocument_defaults_offsets :
  let p c := repeat c 600 in
  map (fun c => (charStart c, charEnd c))
      (chunkDocument
         (p 97%N ++ [LF; LF] ++ p 98%N ++ [LF; LF] ++ p 99%N) no_options)
  = [ (0, 600); (-1, 1200); (-1, 1801) ].
Proof. vm_compute. reflexivity. Qed.

End RagPipelineChunkerFacts.

(** ** Computations *)

Module EffectsFacts.

Import Observations.
Local Open Scope js_scope.

Lemma finishes_ret {A} (a : A) : finishes (ret a).
Proof. intros w. discriminate. Qed.

Lemma finishes_throw {A} e : finishes (@throw State A e).
Proof. intros w. discriminate. Qed.

Lemma finishes_bind {A B} (m : M State A) (k : A -> M State B) :
  finishes m -> (forall a, finishes (k a)) -> finishes (bind m k).
Proof.
  intros Hm Hk w. unfold bind. specialize (Hm w).
  destruct (m w) as [[a|e|] w']; simpl in *; [apply Hk|congruence..].
Qed.

Lemma finishes_try_catch {A} (m : M State A) (h : jsstring -> M State A) :
  finishes m -> (forall e, finishes (h e)) -> finishes (try_catch m h).
Proof.
  intros Hm Hh w. unfold try_catch. specialize (Hm w).
  destruct (m w) as [[a|e|] w']; simpl in *; [congruence|apply Hh|congruence].
Qed.

(** A [try] whose body finishes and whose handler resolves, resolves. *)
Lemma resolves_try_catch {A} (m : M State A) (h : jsstring -> M State A) :
  finishes m -> (forall e, resolves (h e)) -> resolves (try_catch m h).
Proof.
  intros Hm Hh w. unfold try_catch. specialize (Hm w).
  destruct (m w) as [[a|e|] w']; simpl in *; [eauto|apply Hh|congruence].
Qed.

Lemma resolves_ret {A} (a : A) : resolves (ret a).
Proof. intros w. unfold ret. eauto. Qed.

Lemma finishes_fetch E text : finishes (fetch_embedContent E text).
Proof. intros w. discriminate. Qed.

Lemma finishes_rpc E qe thr k :
  finishes (ChunkStore.rpc_match_documents E qe thr k).
Proof.
  intros w. unfold ChunkStore.rpc_match_documents.
  destruct (rpc_failure E qe thr k); [discriminate|].
  destruct qe; [|discriminate].
  destruct (ChunkStore.match_documents _ _ _ _ _); discriminate.
Qed.

Lemma finishes_select_limit E n : finishes (ChunkStore.select_limit E n).
Proof.
  intros w. unfold ChunkStore.select_limit.
  destruct (select_failure E _ n); [discriminate|].
  destruct (n <? 0); discriminate.
Qed.

Lemma finishes_createServiceClient E :
  finishes (ChunkStore.createServiceClient E).
Proof.
  unfold ChunkStore.createServiceClient.
  destruct (_ && _); [apply finishes_ret|apply finishes_throw].
Qed.

End EffectsFacts.

Create HintDb finishes.

#[export] Hint Resolve EffectsFacts.finishes_ret EffectsFacts.finishes_throw
  EffectsFacts.finishes_fetch EffectsFacts.finishes_rpc
  EffectsFacts.finishes_select_limit EffectsFacts.finishes_createServiceClient
  : finishes.

(** Splits a sequence or a [try], and goes by cases through a [match]. *)
Ltac finishing :=
  repeat first
    [ solve [auto with finishes]
    | apply EffectsFacts.finishes_bind; [|intros ?]
    | apply EffectsFacts.finishes_try_catch; [|intros ?]
    | match goal with
      | |- Observations.finishes (match ?x with _ => _ end) => destruct x
      end ].

(** ** The embedding gateways *)

Module GatewayFacts.

Import Observations Scenarios.

Lemma called_nil w : called w [] = w.
Proof. destruct w. unfold called. simpl. now rewrite app_nil_r. Qed.

Lemma called_cons w t r : called (called w [t]) r = called w (t :: r).
Proof. unfold called. simpl. now rewrite <- app_assoc. Qed.

Lemma calls_after w (t : jsstring) :
  List.length (fetch_log w ++ [t]) = S (List.length (fetch_log w)).
Proof. rewrite length_app. simpl. lia. Qed.

Lemma answers_length E texts : forall n,
  List.length (answers E n texts) = List.length texts.
Proof. induction texts; intros n; simpl; auto. Qed.

Lemma answers_nth E texts : forall n j t,
  nth_error texts j = Some t ->
  nth_error (answers E n texts) j
  = Some (vector_of_response (embed_endpoint E (n + j) t)).
Proof.
  induction texts as [|x r IH]; intros n [|j] t H; simpl in *;
    try discriminate.
  - injection H as ->. now rewrite Nat.add_0_r.
  - rewrite (IH (S n) j t H). now rewrite Nat.add_succ_r.
Qed.

(** One call of the browser gateway: one outbound call, and the
    embedding is what the answer to that call holds. *)
Lemma generateEmbedding_run E text w :
  isConfigured_gemini E = true ->
  exists err,
    GeminiClient.generateEmbedding E text w
    = (Ok (GeminiClient.mkEmbedding
             (vector_of_response
                (embed_endpoint E (List.length (fetch_log w)) text)) err),
       called w [text]).
Proof.
  intros Hk. unfold GeminiClient.generateEmbedding. rewrite Hk. simpl.
  unfold try_catch, bind, fetch_embedContent.
  destruct (embed_endpoint E (List.length (fetch_log w)) text)
    as [e|[e|err]|[e|[values|]]]; simpl; unfold ret, called; eauto.
Qed.

Lemma promise_all_generateEmbedding E texts :
  isConfigured_gemini E = true ->
  forall w,
  exists results,
    GeminiClient.promise_all (GeminiClient.generateEmbedding E) texts w
    = (Ok results, called w texts)
    /\ map GeminiClient.embedding results
       = answers E (List.length (fetch_log w)) texts.
Proof.
  intros Hk. induction texts as [|t r IH]; intros w.
  - exists []. simpl. unfold ret. now rewrite called_nil.
  - destruct (generateEmbedding_run E t w Hk) as [err Ht].
    destruct (IH (called w [t])) as (results & Hr & Hm).
    eexists (_ :: results). simpl GeminiClient.promise_all.
    unfold bind at 1. rewrite Ht.
    unfold bind at 1. rewrite Hr. unfold ret.
    rewrite called_cons. split; [reflexivity|].
    simpl. f_equal. rewrite Hm. simpl fetch_log. now rewrite calls_after.
Qed.

(** One chunk of the server's loop. *)
Lemma embed_chunk_run E chunk w :
  ProcessDocument.embed_chunk E chunk w
  = (Ok (vector_of_response
           (embed_endpoint E (List.length (fetch_log w)) chunk)),
     called w [chunk]).
Proof.
  unfold ProcessDocument.embed_chunk, try_catch, bind, fetch_embedContent.
  destruct (embed_endpoint E (List.length (fetch_log w)) chunk)
    as [e|[e|err]|[e|[values|]]]; reflexivity.
Qed.

Lemma embed_loop_run E chunks : forall acc w,
  ProcessDocument.embed_loop E chunks acc w
  = (Ok (acc ++ answers E (List.length (fetch_log w)) chunks),
     called w chunks).
Proof.
  induction chunks as [|c r IH]; intros acc w; simpl.
  - unfold ret. now rewrite called_nil, app_nil_r.
  - unfold bind. rewrite embed_chunk_run, IH.
    rewrite called_cons, <- app_assoc. simpl fetch_log.
    now rewrite calls_after.
Qed.

(** C9: with no credential, the gateway fails with the configuration
    error ("API key not configured" in the result of the browser
    library, "GEMINI_API_KEY is required" thrown by the server) before
    anything else happens: the state, and with it the log of outbound
    calls, is what it was. The batch functions do the same. *)
Theorem no_credential_no_outbound_call E text texts w :
  is_set (GEMINI_API_KEY E) = false ->
  GeminiClient.generateEmbedding E text w
    = (Ok (GeminiClient.mkEmbedding None
             (Some (js "API key not configured"))), w)
  /\ Rag.generateQueryEmbedding E text w
     = (Throw (js "GEMINI_API_KEY is required"), w)
  /\ GeminiClient.generateEmbeddings E texts w
     = (Ok (GeminiClient.mkEmbeddings []
              (Some (js "API key not configured"))), w)
  /\ ProcessDocument.generateEmbeddings E texts w
     = (Throw (js "GEMINI_API_KEY is required for embeddings"), w).
Proof.
  intros Hk.
  unfold GeminiClient.generateEmbedding, GeminiClient.generateEmbeddings,
    Rag.generateQueryEmbedding, ProcessDocument.generateEmbeddings,
    isConfigured_gemini.
  rewrite Hk. repeat split.
Qed.

Lemma no_credential_no_outbound_call_witness :
  fetch_log
    (snd (Rag.generateQueryEmbedding (deployment None [] None)
            (js "refund policy") loaded_state)) = []
  /\ fst (GeminiClient.generateEmbedding (deployment (Some (js "")) [] None)
            (js "refund policy") loaded_state)
     = Ok (GeminiClient.mkEmbedding None (Some (js "API key not configured"))).
Proof.
  split.
  - rewrite (proj1 (proj2 (no_credential_no_outbound_call
                             (deployment None [] None) (js "refund policy") []
                             loaded_state eq_refl))).
    reflexivity.
  - rewrite (proj1 (no_credential_no_outbound_call
                      (deployment (Some (js "")) [] None)
                      (js "refund policy") [] loaded_state eq_refl)).
    reflexivity.
Defined.

(** C5, as amended: when a credential is configured, both batch
    functions make one call per text, in the order of the texts, and
    return a sequence of the same length whose [j]-th item is what the
    answer to the [j]-th call holds (null when that call failed),
    whatever the answers to the other calls are. *)
Theorem generateEmbeddings_same_length_same_order E texts w :
  is_set (GEMINI_API_KEY E) = true ->
  exists vs,
    GeminiClient.generateEmbeddings E texts w
      = (Ok (GeminiClient.mkEmbeddings vs None), called w texts)
    /\ ProcessDocument.generateEmbeddings E texts w
       = (Ok vs, called w texts)
    /\ List.length vs = List.length texts
    /\ forall j t,
         nth_error texts j = Some t ->
         nth_error vs j
         = Some (vector_of_response
                   (embed_endpoint E (List.length (fetch_log w) + j) t)).
Proof.
  intros Hk. exists (answers E (List.length (fetch_log w)) texts).
  split; [|split; [|split]].
  - unfold GeminiClient.generateEmbeddings, isConfigured_gemini.
    rewrite Hk. simpl.
    destruct (promise_all_generateEmbedding E texts Hk w) as (rs & Hr & Hm).
    unfold try_catch, bind. rewrite Hr. unfold ret. now rewrite Hm.
  - unfold ProcessDocument.generateEmbeddings. rewrite Hk. simpl.
    now rewrite embed_loop_run.
  - apply answers_length.
  - intros j t. apply answers_nth.
Qed.

Lemma generateEmbeddings_same_length_same_order_witness :
  exists vs,
    ProcessDocument.generateEmbeddings (deployment key [1%nat] None)
      [js "one"; js "two"; js "three"] empty_state
    = (Ok vs, mkState [js "one"; js "two"; js "three"] [] [])
    /\ vs = [Some unit_x; None; Some unit_x].
Proof.
  destruct (generateEmbeddings_same_length_same_order
              (deployment key [1%nat] None)
              [js "one"; js "two"; js "three"] empty_state eq_refl)
    as (vs & _ & Hs & Hl & Hn).
  exists vs. split; [exact Hs|].
  pose proof (Hn 0%nat _ eq_refl) as H0.
  pose proof (Hn 1%nat _ eq_refl) as H1.
  pose proof (Hn 2%nat _ eq_refl) as H2.
  destruct vs as [|a [|b [|c [|]]]]; try discriminate Hl.
  simpl in H0, H1, H2. congruence.
Defined.

(** C5 as stated fails when no credential is configured: the batch
    function of the browser library answers one text with an empty
    sequence, and the one of the server throws. *)
Lemma generateEmbeddings_not_configured_empty :
  GeminiClient.generateEmbeddings (deployment None [] None) [js "one"]
    empty_state
  = (Ok (GeminiClient.mkEmbeddings [] (Some (js "API key not configured"))),
     empty_state)
  /\ List.length (@nil (option vector)) <> List.length [js "one"]
  /\ ProcessDocument.generateEmbeddings (deployment None [] None) [js "one"]
       empty_state
     = (Throw (js "GEMINI_API_KEY is required for embeddings"), empty_state).
Proof. repeat split. discriminate. Qed.

End GatewayFacts.

(** ** The retriever *)

Module RagFacts.

Import Observations Scenarios EffectsFacts.

Lemma finishes_generateQueryEmbedding E query :
  finishes (Rag.generateQueryEmbedding E query).
Proof.
  unfold Rag.generateQueryEmbedding.
  destruct (negb _); finishing.
Qed.

(** The embedding step leaves the tables alone. *)
Lemma generateQueryEmbedding_tables E query w r w' :
  Rag.generateQueryEmbedding E query w = (r, w') ->
  document_chunks w' = document_chunks w.
Proof.
  unfold Rag.generateQueryEmbedding.
  destruct (negb _).
  - unfold throw. now intros [= _ <-].
  - unfold bind, fetch_embedContent.
    destruct (embed_endpoint E _ query) as [e|[e|err]|[e|[values|]]];
      unfold throw, ret; now intros [= _ <-].
Qed.

(** The RPC answers, and changes nothing. *)
Lemma rpc_match_documents_run E qe thr k w :
  exists r, ChunkStore.rpc_match_documents E qe thr k w = (Ok r, w).
Proof.
  unfold ChunkStore.rpc_match_documents.
  destruct (rpc_failure E qe thr k); [eauto|].
  destruct qe; [|eauto].
  destruct (ChunkStore.match_documents _ _ _ _ _); eauto.
Qed.

(** The fallback read answers from the table and the limit alone. *)
Lemma select_limit_run E k w1 w2 :
  document_chunks w1 = document_chunks w2 ->
  exists r,
    ChunkStore.select_limit E k w1 = (Ok r, w1)
    /\ ChunkStore.select_limit E k w2 = (Ok r, w2).
Proof.
  intros H. unfold ChunkStore.select_limit. rewrite H.
  destruct (select_failure E _ k); [eauto|].
  destruct (k <? 0); eauto.
Qed.




(** C10: when the embedding step succeeds and the RPC answers with an
    error, what [retrieveContext] resolves to (context, chunk count,
    source, error) is the same for any two queries, the state of the
    store being the same. *)
Theorem fallback_ignores_query E q1 q2 topK w e1 e2 w1 w2 m1 m2 :
  let k := match topK with Some k => k | None => Rag.TOP_K end in
  Rag.generateQueryEmbedding E q1 w = (Ok e1, w1) ->
  Rag.generateQueryEmbedding E q2 w = (Ok e2, w2) ->
  rpc_error E e1 k w1 = Some m1 ->
  rpc_error E e2 k w2 = Some m2 ->
  fst (Rag.retrieveContext E q1 topK w) = fst (Rag.retrieveContext E q2 topK w).
Proof.
  intros k H1 H2 R1 R2.
  unfold rpc_error in R1, R2.
  destruct (rpc_match_documents_run E e1 (1 # 2) k w1) as [r1 Hr1].
  destruct (rpc_match_documents_run E e2 (1 # 2) k w2) as [r2 Hr2].
  rewrite Hr1 in R1. rewrite Hr2 in R2. simpl in R1, R2.
  assert (Ht : document_chunks w1 = document_chunks w2).
  { rewrite (generateQueryEmbedding_tables _ _ _ _ _ H1).
    now rewrite (generateQueryEmbedding_tables _ _ _ _ _ H2). }
  destruct (select_limit_run E k w1 w2 Ht) as (f & Hf1 & Hf2).
  unfold Rag.retrieveContext, try_catch, bind. fold k.
  rewrite H1, H2. unfold ChunkStore.createServiceClient.
  destruct (is_set (SUPABASE_URL E) && is_set (SUPABASE_SERVICE_ROLE_KEY E));
    [|reflexivity].
  unfold ret, throw. cbv beta iota.
  rewrite Hr1, Hr2, R1, R2, Hf1, Hf2.
  destruct (World.error f); reflexivity.
Qed.

Lemma fallback_ignores_query_witness :
  fst (Rag.retrieveContext (deployment key [] no_function)
         (js "refund policy") (Some 2) loaded_state)
  = fst (Rag.retrieveContext (deployment key [] no_function)
           (js "sea view") (Some 2) loaded_state)
  /\ fst (Rag.retrieveContext (deployment key [] no_function)
            (js "sea view") (Some 2) loaded_state)
     = Ok (Rag.mkContext
             (js "Two bedroom flats" ++ Rag.separator ++ js "Payment plan")
             2 (Some Rag.fallback) None).
Proof.
  split.
  - eapply (fallback_ignores_query (deployment key [] no_function)
              (js "refund policy") (js "sea view") (Some 2) loaded_state);
      reflexivity.
  - reflexivity.
Defined.

End RagFacts.

(** ** The chunk store *)

Module ChunkStoreFacts.

Import ChunkStore Observations Scenarios.
Local Open Scope Q_scope.

Lemma Qlt_bool_true a b : Qlt_bool a b = true -> a < b.
Proof.
  unfold Qlt_bool. intros H. apply Qnot_le_lt. intros Hle.
  apply Qle_bool_iff in Hle. rewrite Hle in H. discriminate H.
Qed.

Lemma Qle_bool_false a b : Qle_bool a b = false -> b <= a.
Proof.
  intros H. apply Qlt_le_weak, Qnot_le_lt. intros Hle.
  apply Qle_bool_iff in Hle. congruence.
Qed.

Lemma Qlt_bool_false a b : Qlt_bool a b = false -> b <= a.
Proof.
  unfold Qlt_bool. intros H. apply Qle_bool_iff.
  destruct (Qle_bool b a); [reflexivity|discriminate H].
Qed.

(** What [>] lets through against a threshold that is a number: the
    greater numbers, and NaN. *)
Lemma float8_gt_number s threshold :
  float8_gt s (Finite threshold) = true ->
  match s with
  | Finite q => threshold < q
  | NaN => True
  end.
Proof.
  destruct s as [q|]; simpl; [|trivial]. apply Qlt_bool_true.
Qed.

Lemma float8_gt_not_above s threshold :
  float8_gt s (Finite threshold) = false ->
  exists q, s = Finite q /\ q <= threshold.
Proof.
  destruct s as [q|]; simpl; [|discriminate].
  intros H. exists q. split; [reflexivity|]. now apply Qlt_bool_false.
Qed.

Lemma float8_le_numbers x y :
  float8_le (Finite x) (Finite y) = true <-> x <= y.
Proof.
  unfold float8_le, float8_gt, Qlt_bool. rewrite negb_involutive.
  apply Qle_bool_iff.
Qed.

Lemma float8_le_trans a b c :
  float8_le a b = true -> float8_le b c = true -> float8_le a c = true.
Proof.
  destruct a as [x|], b as [y|], c as [z|]; try reflexivity;
    try discriminate.
  rewrite !float8_le_numbers. apply Qle_trans.
Qed.

Lemma float8_le_false a b :
  float8_le a b = false -> float8_le b a = true.
Proof.
  destruct a as [x|], b as [y|]; try reflexivity; try discriminate.
  unfold float8_le, float8_gt, Qlt_bool. rewrite !negb_involutive.
  intros H. apply Qle_bool_iff. now apply Qle_bool_false.
Qed.

(** The rows that pass the WHERE clause are rows of the table with an
    embedding, at the distance [<=>] gives, and a similarity that [>]
    puts above the threshold. *)
Lemma where_clause_passed cd q thr table : forall passed x,
  where_clause cd q thr table = inr passed ->
  In x passed ->
  In (snd x) table
  /\ (exists e, row_embedding (snd x) = Some e /\ fst x = cd e q)
  /\ float8_gt (one_minus (fst x)) thr = true.
Proof.
  induction table as [|r rest IH]; intros passed x; simpl.
  - intros [= <-] [].
  - unfold distance. destruct (row_embedding r) as [e|] eqn:He.
    + destruct (Nat.eqb (List.length e) (List.length q)); [|discriminate].
      destruct (where_clause cd q thr rest) as [err|p]; [discriminate|].
      destruct (float8_gt (one_minus (cd e q)) thr) eqn:Hgt;
        intros [= <-] Hx.
      * destruct Hx as [<-|Hx].
        -- simpl. split; [now left|]. split; [eauto|exact Hgt].
        -- destruct (IH p x eq_refl Hx) as (H1 & H2 & H3). auto.
      * destruct (IH p x eq_refl Hx) as (H1 & H2 & H3). auto.
    + intros Hw Hx. destruct (IH passed x Hw Hx) as (H1 & H2 & H3). auto.
Qed.

(** The WHERE clause fails on nothing but a vector of another
    dimension. *)
Lemma where_clause_returns cd q thr table :
  (forall r e, In r table -> row_embedding r = Some e ->
     List.length e = List.length q) ->
  exists passed, where_clause cd q thr table = inr passed.
Proof.
  induction table as [|r rest IH]; intros Hd; simpl; [eauto|].
  destruct IH as [p Hp]; [intros r' e Hr'; apply Hd; now right|].
  unfold distance. destruct (row_embedding r) as [e|] eqn:He.
  - rewrite (proj2 (Nat.eqb_eq _ _) (Hd r e (or_introl eq_refl) He)), Hp.
    eauto.
  - eauto.
Qed.

Lemma insert_by_distance_members x l y :
  In y (insert_by_distance x l) -> y = x \/ In y l.
Proof.
  induction l as [|z r IH]; simpl.
  - intros [<-|[]]. now left.
  - destruct (float8_le (fst x) (fst z)); simpl.
    + intros [<-|H]; auto.
    + intros [<-|H]; auto. destruct (IH H); auto.
Qed.

Lemma order_by_distance_members l y :
  In y (order_by_distance l) -> In y l.
Proof.
  induction l as [|x r IH]; simpl; [auto|].
  intros H. apply insert_by_distance_members in H.
  destruct H as [->|H]; auto.
Qed.

Lemma insert_by_distance_sorted x l :
  StronglySorted by_distance l ->
  StronglySorted by_distance (insert_by_distance x l).
Proof.
  induction l as [|z r IH]; intros Hs; simpl.
  - constructor; constructor.
  - apply StronglySorted_inv in Hs. destruct Hs as [Hr Hz].
    destruct (float8_le (fst x) (fst z)) eqn:Hxz.
    + constructor.
      * now constructor.
      * constructor; [exact Hxz|].
        eapply Forall_impl; [|exact Hz].
        intros a Ha. unfold by_distance in *.
        eapply float8_le_trans; eassumption.
    + apply float8_le_false in Hxz. constructor; [now apply IH|].
      apply Forall_forall. intros y Hy.
      apply insert_by_distance_members in Hy. destruct Hy as [->|Hy].
      * exact Hxz.
      * rewrite Forall_forall in Hz. now apply Hz.
Qed.

Lemma order_by_distance_sorted l :
  StronglySorted by_distance (order_by_distance l).
Proof.
  induction l as [|x r IH]; simpl.
  - constructor.
  - now apply insert_by_distance_sorted.
Qed.

Lemma firstn_members {A} n (l : list A) x : In x (firstn n l) -> In x l.
Proof.
  revert l. induction n as [|n IH]; intros [|a l]; simpl; try tauto.
  intros [<-|H]; auto.
Qed.

Lemma firstn_sorted {A} (R : A -> A -> Prop) n l :
  StronglySorted R l -> StronglySorted R (firstn n l).
Proof.
  revert l. induction n as [|n IH]; intros [|a l] Hs; simpl;
    try constructor.
  - apply IH. now apply StronglySorted_inv in Hs.
  - apply StronglySorted_inv in Hs. destruct Hs as [_ Ha].
    apply Forall_forall. intros x Hx. apply firstn_members in Hx.
    rewrite Forall_forall in Ha. now apply Ha.
Qed.

Lemma map_sorted {A B} (R : A -> A -> Prop) (R' : B -> B -> Prop)
    (f : A -> B) l :
  (forall a b, R a b -> R' (f a) (f b)) ->
  StronglySorted R l -> StronglySorted R' (map f l).
Proof.
  intros Hf. induction 1 as [|a l Hs IH Ha]; simpl; constructor.
  - exact IH.
  - apply Forall_forall. intros y Hy. apply in_map_iff in Hy.
    destruct Hy as (x & <- & Hx). rewrite Forall_forall in Ha. auto.
Qed.

(** The nearer, the more similar; a NaN distance is a NaN similarity. *)
Lemma one_minus_order a b :
  float8_le a b = true -> numbers_then_NaN (one_minus a) (one_minus b).
Proof.
  destruct a as [x|], b as [y|]; simpl; try trivial; try discriminate.
  rewrite float8_le_numbers. intros H.
  unfold Qminus. apply Qplus_le_r. now apply Qopp_le_compat.
Qed.

Lemma select_row_order a b :
  by_distance a b -> by_similarity (select_row a) (select_row b).
Proof.
  unfold by_distance, by_similarity, select_row. simpl.
  apply one_minus_order.
Qed.

(** What the search does keep, whatever the vectors: each row it returns
    is a row the plan visited whose similarity [>] puts above the
    threshold (a greater number, or NaN); there are at most
    [match_count] rows; the numbers come first, the greatest first. *)
Lemma match_documents_sound cd visited table query_embedding
    match_threshold match_count rows :
  match_documents cd visited table query_embedding match_threshold
    match_count = inr rows ->
  Forall (fun r => float8_gt (similarity r) match_threshold = true) rows
  /\ (Z.of_nat (List.length rows) <= match_count)%Z
  /\ StronglySorted by_similarity rows.
Proof.
  unfold match_documents.
  destruct (negb (is_int4 match_count)); [discriminate|].
  destruct query_embedding as [|q0 q]; [discriminate|].
  destruct (Z.ltb_spec match_count 0); [discriminate|].
  destruct (Z.eqb_spec match_count 0).
  { intros [= <-]. simpl. repeat split; [constructor|lia|constructor]. }
  destruct (where_clause cd (q0 :: q) match_threshold
              (filter (visited (q0 :: q)) table)) as [e|passed] eqn:Hw;
    [discriminate|].
  intros [= <-]. split; [|split].
  - apply Forall_forall. intros r Hr. apply in_map_iff in Hr.
    destruct Hr as (x & <- & Hx).
    apply firstn_members, order_by_distance_members in Hx.
    simpl. now apply (where_clause_passed _ _ _ _ _ _ Hw) in Hx.
  - rewrite length_map.
    pose proof (firstn_le_length (Z.to_nat match_count)
                  (order_by_distance passed)).
    lia.
  - apply map_sorted with (R := by_distance); [exact select_row_order|].
    apply firstn_sorted, order_by_distance_sorted.
Qed.

(** The search returns for a limit from 0 to the greatest [int] and a
    query vector of the dimension of the embeddings. *)
Lemma match_documents_runs cd visited table query_embedding
    match_threshold match_count :
  (0 <= match_count <= 2147483647)%Z ->
  query_embedding <> [] ->
  (forall r e, In r table -> row_embedding r = Some e ->
     List.length e = List.length query_embedding) ->
  exists rows,
    match_documents cd visited table query_embedding match_threshold
      match_count = inr rows.
Proof.
  intros Hk Hq Hd. unfold match_documents, is_int4.
  replace (-2147483648 <=? match_count)%Z with true
    by (symmetry; apply Z.leb_le; lia).
  replace (match_count <=? 2147483647)%Z with true
    by (symmetry; apply Z.leb_le; lia).
  simpl. destruct query_embedding as [|q0 q]; [congruence|].
  destruct (Z.ltb_spec match_count 0); [lia|].
  destruct (Z.eqb_spec match_count 0); [eauto|].
  destruct (where_clause_returns cd (q0 :: q) match_threshold
              (filter (visited (q0 :: q)) table)) as [p Hp].
  - intros r e Hr. apply filter_In in Hr. apply Hd, Hr.
  - rewrite Hp. eauto.
Qed.

(** C4: a chunk whose embedding is the zero vector is at distance NaN
    from every query, and PostgreSQL takes NaN as greater than every
    number: with the threshold 0.5 and the limit 5, the search over the
    four embedded chunks returns that chunk too, after the two chunks
    above the threshold, with a similarity that is NaN. Not every row
    returned has a similarity that is a number strictly greater than the
    threshold, and the similarities are not in descending order, be it
    as numbers or in the order of PostgreSQL, where NaN is the
    greatest. *)
Theorem match_documents_returns_NaN_row :
  exists rows,
    match_documents unit_distance sequential_scan stored_with_zero unit_x
      (Finite (1 # 2)) 5 = inr rows
    /\ rows
       = [ mkMatchRow 1 (js "doc-1") (js "Payment plan") (Finite 1);
           mkMatchRow 2 (js "doc-2") (js "Refund policy") (Finite (3 # 5));
           mkMatchRow 4 (js "doc-3") (js "Blank page") NaN ]
    /\ ~ Forall (fun r => above (1 # 2) (similarity r)) rows
    /\ ~ descending (map similarity rows)
    /\ ~ descending_in_postgres (map similarity rows).
Proof.
  eexists. split; [vm_compute; reflexivity|]. split; [reflexivity|].
  split; [|split].
  - intros H. apply Forall_inv_tail, Forall_inv_tail, Forall_inv in H.
    exact H.
  - intros H. apply StronglySorted_inv in H. destruct H as [_ H].
    apply Forall_inv_tail, Forall_inv in H. exact H.
  - intros H. apply StronglySorted_inv in H. destruct H as [_ H].
    apply Forall_inv_tail, Forall_inv in H. discriminate H.
Qed.

End ChunkStoreFacts.

(** ** Storing the chunks of a document *)

Module StorageFacts.

Import Observations Scenarios GatewayFacts.

(** The state after the rows [new] were added to [document_chunks]. *)
Lemma save_loop_run E documentId documentType chunks :
  forall embeddings savedCount w,
  exists new,
    ProcessDocument.save_loop E chunks embeddings documentId documentType
      savedCount w
    = (Ok (savedCount + Z.of_nat (List.length new)),
       mkState (fetch_log w) (document_chunks w ++ new) (World.embeddings w))
    /\ Forall (fun r => row_embedding r <> None) new
    /\ (List.length new <= present (List.length chunks) embeddings)%nat
    /\ Forall (fun r => row_document_id r = documentId
                        /\ row_document_type r = documentType
                        /\ In (row_content r) chunks) new.
Proof.
  assert (Hmore : forall chunk rest (new : list ChunkRow),
             Forall (fun r => row_document_id r = documentId
                              /\ row_document_type r = documentType
                              /\ In (row_content r) rest) new ->
             Forall (fun r => row_document_id r = documentId
                              /\ row_document_type r = documentType
                              /\ In (row_content r) (chunk :: rest)) new).
  { intros chunk rest new. apply Forall_impl. intros r (H1 & H2 & H3).
    repeat split; auto. now right. }
  induction chunks as [|chunk rest IH]; intros embeddings savedCount w.
  - exists []. simpl. unfold ret. rewrite app_nil_r, Z.add_0_r.
    destruct w; simpl. repeat split; [constructor|lia|constructor].
  - destruct embeddings as [|[v|] embeddings]; simpl.
    + destruct (IH [] savedCount w) as (new & Hr & Hf & Hl & Hc).
      exists new. simpl in Hr. rewrite Hr. split; [reflexivity|].
      split; [exact Hf|].
      split; [destruct rest; simpl in Hl; lia|exact (Hmore _ _ _ Hc)].
    + unfold bind at 1, try_catch, bind, ChunkStore.insert_chunk.
      destruct (insert_outcome E (document_chunks w) _).
      * unfold ret at 1.
        match goal with
        | |- context [ProcessDocument.save_loop _ _ _ _ _ _ ?w'] =>
            destruct (IH embeddings (savedCount + 1) w')
              as (new & Hr & Hf & Hl & Hc)
        end.
        eexists (_ :: new). rewrite Hr. simpl.
        rewrite <- app_assoc. simpl. split; [|split; [|split]].
        -- f_equal. f_equal. lia.
        -- constructor; [discriminate|exact Hf].
        -- lia.
        -- constructor; [simpl; auto|exact (Hmore _ _ _ Hc)].
      * unfold ret at 1.
        destruct (IH embeddings savedCount w) as (new & Hr & Hf & Hl & Hc).
        exists new. rewrite Hr. split; [reflexivity|].
        split; [exact Hf|]. split; [lia|exact (Hmore _ _ _ Hc)].
      * unfold ret at 1.
        destruct (IH embeddings savedCount w) as (new & Hr & Hf & Hl & Hc).
        exists new. rewrite Hr. split; [reflexivity|].
        split; [exact Hf|]. split; [lia|exact (Hmore _ _ _ Hc)].
    + destruct (IH embeddings savedCount w) as (new & Hr & Hf & Hl & Hc).
      exists new. rewrite Hr. split; [reflexivity|].
      split; [exact Hf|]. split; [exact Hl|exact (Hmore _ _ _ Hc)].
Qed.

Lemma present_missing embeddings :
  In None embeddings ->
  (present (List.length embeddings) embeddings < List.length embeddings)%nat.
Proof.
  assert (Hle : forall l n, (present n l <= n)%nat).
  { induction l as [|[v|] l IHl]; intros [|n]; simpl; try lia;
      specialize (IHl n); lia. }
  induction embeddings as [|[v|] l IH]; simpl.
  - intros [].
  - intros [H|H]; [discriminate|]. apply -> Nat.succ_lt_mono. now apply IH.
  - intros _. specialize (Hle l (List.length l)). lia.
Qed.

Lemma extractText_state E buffer mimeType w r w' :
  ProcessDocument.extractText E buffer mimeType w = (r, w') -> w' = w.
Proof.
  unfold ProcessDocument.extractText.
  destruct (ProcessDocument.jsstring_eqb mimeType ProcessDocument.PDF).
  - destruct (pdfParse E buffer); unfold ret, throw; congruence.
  - destruct (ProcessDocument.jsstring_eqb mimeType ProcessDocument.DOCX).
    + destruct (mammoth E buffer); unfold ret, throw; congruence.
    + unfold throw; congruence.
Qed.

(** X14: What the server's pipeline does with failed embeddings: when
    [processDocument] reports success, the text is the one extracted,
    the chunks are those [splitIntoChunks] makes of it with the sizes
    900 and 100, one outbound call was made for each chunk, in turn, and
    [total_chunks] is the number of chunks. The rows it added to
    [document_chunks] all carry an embedding, the document's id and type
    and the text of one of the chunks; [chunks_created] is their number,
    at most the number of embeddings that did not fail, and so below
    [total_chunks] as soon as one embedding failed. Nothing else has
    changed. *)
Lemma processDocument_drops_failed_embeddings E buffer documentId mimeType
    documentType w r w' :
  ProcessDocument.processDocument E buffer documentId mimeType documentType w
  = (Ok r, w') ->
  ProcessDocument.success r = true ->
  exists text chunks embeddings new,
    ProcessDocument.extractText E buffer mimeType w = (Ok text, w)
    /\ ProcessDocumentChunker.splitIntoChunks
         (ProcessDocument.chunk_fuel (ProcessDocumentChunker.cleanText text)
            ProcessDocumentChunker.CHUNK_SIZE
            ProcessDocumentChunker.CHUNK_OVERLAP)
         text ProcessDocumentChunker.CHUNK_SIZE
         ProcessDocumentChunker.CHUNK_OVERLAP = Some chunks
    /\ ProcessDocument.generateEmbeddings E chunks w
       = (Ok embeddings, called w chunks)
    /\ List.length embeddings = List.length chunks
    /\ r = ProcessDocument.mkProcessed true (Some documentId)
             (Z.of_nat (List.length new))
             (Some (Z.of_nat (List.length chunks))) None
    /\ w' = mkState (fetch_log w ++ chunks) (document_chunks w ++ new)
              (World.embeddings w)
    /\ Forall (fun row =>
                 row_embedding row <> None
                 /\ row_document_id row = documentId
                 /\ row_document_type row = documentType
                 /\ In (row_content row) chunks) new
    /\ (List.length new <= present (List.length chunks) embeddings)%nat
    /\ (In None embeddings ->
        ProcessDocument.chunks_created r < Z.of_nat (List.length chunks)).
Proof.
  unfold ProcessDocument.processDocument, try_catch. unfold bind at 1.
  destruct (ProcessDocument.extractText E buffer mimeType w)
    as [[text|e|] w0] eqn:Hx;
    [|unfold ret; intros [= <- _]; discriminate|discriminate].
  pose proof (extractText_state _ _ _ _ _ _ Hx) as Hw0. subst w0.
  destruct (negb (truthy text) || (length text <? 10));
    [unfold ret; intros [= <- _]; discriminate|].
  unfold bind at 1, of_fuel.
  destruct (ProcessDocumentChunker.splitIntoChunks _ text _ _)
    as [chunks|] eqn:Hsplit; [|discriminate].
  unfold bind at 1.
  destruct (is_set (GEMINI_API_KEY E)) eqn:Hk.
  2:{ unfold ProcessDocument.generateEmbeddings. rewrite Hk. simpl.
      unfold throw, ret. intros [= <- _]. discriminate. }
  assert (Hg : ProcessDocument.generateEmbeddings E chunks w
               = (Ok (answers E (List.length (fetch_log w)) chunks),
                  called w chunks)).
  { unfold ProcessDocument.generateEmbeddings. rewrite Hk. simpl.
    now rewrite embed_loop_run. }
  set (vs := answers E (List.length (fetch_log w)) chunks) in *.
  assert (Hl : List.length vs = List.length chunks)
    by apply answers_length.
  rewrite Hg. unfold ProcessDocument.saveChunksToSupabase.
  unfold bind at 1 2, ChunkStore.createServiceClient.
  destruct (is_set (SUPABASE_URL E) && is_set (SUPABASE_SERVICE_ROLE_KEY E));
    [|unfold throw, ret; intros [= <- _]; discriminate].
  unfold ret at 1.
  destruct (save_loop_run E documentId documentType chunks vs 0
              (called w chunks)) as (new & Hs & Hf & Hp & Hc).
  rewrite Hs. unfold ret. intros [= <- <-] _.
  exists text, chunks, vs, new. simpl.
  split; [reflexivity|]. split; [exact Hsplit|]. split; [exact Hg|].
  split; [exact Hl|]. split; [reflexivity|]. split; [reflexivity|].
  split; [|split; [exact Hp|]].
  - apply Forall_forall. intros row Hrow. rewrite Forall_forall in Hf, Hc.
    destruct (Hc row Hrow) as (H1 & H2 & H3). auto using Hf.
  - intros Hn. apply present_missing in Hn. rewrite Hl in Hn. lia.
Qed.

Lemma default_chunking_returns text :
  exists chunks,
    ProcessDocumentChunker.splitIntoChunks
      (ProcessDocument.chunk_fuel (ProcessDocumentChunker.cleanText text)
         ProcessDocumentChunker.CHUNK_SIZE ProcessDocumentChunker.CHUNK_OVERLAP)
      text ProcessDocumentChunker.CHUNK_SIZE
      ProcessDocumentChunker.CHUNK_OVERLAP
    = Some chunks.
Proof.
  unfold ProcessDocument.chunk_fuel, ProcessDocumentChunker.CHUNK_SIZE,
    ProcessDocumentChunker.CHUNK_OVERLAP.
  apply ProcessDocumentChunkerFacts.splitIntoChunks_ends_within;
    try lia.
  set (len := length (ProcessDocumentChunker.cleanText text)).
  assert (0 <= len) by (unfold len, length; lia).
  change (900 - 2 * 100 + 1) with 701.
  pose proof (Z.div_pos (2 * len) 701 ltac:(lia) ltac:(lia)).
  pose proof (Z.mul_succ_div_gt (2 * len) 701 ltac:(lia)).
  rewrite Nat2Z.inj_succ, Z2Nat.id by lia. lia.
Qed.

(** X13: [processDocument] always resolves: the chunking loop ends, and every
    error is turned into a result. *)
Lemma processDocument_resolves E buffer documentId mimeType documentType :
  resolves (ProcessDocument.processDocument E buffer documentId mimeType
              documentType).
Proof.
  unfold ProcessDocument.processDocument.
  apply EffectsFacts.resolves_try_catch;
    [|intros e; apply EffectsFacts.resolves_ret].
  apply EffectsFacts.finishes_bind.
  { intros w. destruct (ProcessDocument.extractText E buffer mimeType w)
      as [r w'] eqn:Hx. simpl. intros ->.
    revert Hx. unfold ProcessDocument.extractText.
    repeat match goal with
           | |- context [if ?b then _ else _] => destruct b
           | |- context [match ?p buffer with _ => _ end] =>
               destruct (p buffer)
           end; discriminate. }
  intros text. destruct (_ || _); [apply EffectsFacts.finishes_ret|].
  apply EffectsFacts.finishes_bind.
  { intros w. destruct (default_chunking_returns text) as [chunks ->].
    discriminate. }
  intros chunks. apply EffectsFacts.finishes_bind.
  { intros w. unfold ProcessDocument.generateEmbeddings.
    destruct (negb _); [discriminate|].
    rewrite embed_loop_run. discriminate. }
  intros embeddings. apply EffectsFacts.finishes_bind;
    [|intros ?; apply EffectsFacts.finishes_ret].
  unfold ProcessDocument.saveChunksToSupabase.
  apply EffectsFacts.finishes_bind;
    [apply EffectsFacts.finishes_createServiceClient|].
  intros _ w.
  destruct (save_loop_run E documentId documentType chunks embeddings 0 w)
    as (new & -> & _).
  discriminate.
Qed.

(** C2: a chunk whose embedding failed is claimed never to be stored.
    [storeVectors] of the browser library stores it with a NULL vector:
    of two chunks, the second of which could not be embedded, both are
    inserted, and the count reported is 2. *)
Theorem storeVectors_stores_null_embedding :
  RagPipeline.storeVectors (deployment key [1%nat] None) (js "doc-1")
    two_chunks empty_state
  = (Ok (RagPipeline.mkStoreResult true (Some 2) None),
     mkState [js "intro"; js "prices"] []
       [ mkEmbeddingRow (js "doc-1") 0 (js "intro") (Some unit_x) 0 5;
         mkEmbeddingRow (js "doc-1") 1 (js "prices") None 7 13 ]).
Proof. reflexivity. Qed.

(** The server's pipeline on the same failure: of three chunks, the
    second of which could not be embedded, two are stored. *)
Lemma saveChunksToSupabase_skips_null_embedding :
  ProcessDocument.saveChunksToSupabase (deployment key [] None)
    [js "one"; js "two"; js "three"] [Some unit_x; None; Some unit_y]
    (js "doc-1") (js "brochure") empty_state
  = (Ok 2,
     mkState [] [ mkChunkRow 0 (js "doc-1") (js "one") (Some unit_x)
                    (js "brochure");
                  mkChunkRow 1 (js "doc-1") (js "three") (Some unit_y)
                    (js "brochure") ] []).
Proof. reflexivity. Qed.

End StorageFacts.

(* ================================================================== *)
(** * Further properties of the code *)
(* ================================================================== *)

(** ** The normalizer is a normal form *)

Module NormalizerFacts.

Import Observations JsStringFacts ProcessDocumentChunker
  ProcessDocumentChunkerFacts.

Lemma replace_runs_starts_clean (p : char -> bool) rep (s : jsstring) :
  match s with c :: _ => p c = false | [] => True end ->
  replace_runs p rep true s = replace_runs p rep false s.
Proof. destruct s as [|c r]; simpl; [reflexivity|]. now intros ->. Qed.

(** A string whose only whitespace is single spaces is left as it is by
    [replace(/\s+/g, ' ')]. *)
Lemma replace_whitespace_fixed (s : jsstring) :
  (forall x, In x s -> is_whitespace x = true -> x = SPACE) ->
  single_spaced s ->
  replace_runs is_whitespace SPACE false s = s.
Proof.
  induction s as [|c r IH]; intros Hsp Hss; simpl; [reflexivity|].
  destruct Hss as [Hc Hr].
  assert (IHr : replace_runs is_whitespace SPACE false r = r).
  { apply IH; [|exact Hr]. intros x Hx. apply Hsp. now right. }
  destruct (is_whitespace c) eqn:Hws.
  - rewrite (Hsp c (or_introl eq_refl) Hws). f_equal.
    rewrite replace_runs_starts_clean; [exact IHr|].
    destruct r as [|b r']; [exact I|]. exact Hc.
  - now rewrite IHr.
Qed.

Lemma trimStart_fixed (s : jsstring) : starts_clean s -> trimStart s = s.
Proof. destruct s as [|c r]; simpl; [reflexivity|]. now intros ->. Qed.

Lemma trim_fixed (s : jsstring) : trimmed s -> trim s = s.
Proof.
  intros [Hs He]. unfold trim, trimEnd.
  rewrite (trimStart_fixed s Hs), (trimStart_fixed (rev s) He).
  apply rev_involutive.
Qed.

(** X2: What the cleaning step of [splitIntoChunks] returns: no whitespace
    but the space, no two spaces in a row, none at either end, and no
    more characters than it was given. *)
Theorem cleanText_normal_form (text : jsstring) :
  (forall x, In x (cleanText text) -> is_whitespace x = true -> x = SPACE)
  /\ single_spaced (cleanText text)
  /\ trimmed (cleanText text)
  /\ length (cleanText text) <= length text.
Proof.
  split; [|split; [|split]].
  - intros x. apply cleanText_whitespace_is_space.
  - apply cleanText_single_spaced_trimmed.
  - apply cleanText_single_spaced_trimmed.
  - apply cleanText_length.
Qed.

(** X1: Cleaning a cleaned text changes nothing. *)
Theorem cleanText_idempotent (text : jsstring) :
  cleanText (cleanText text) = cleanText text.
Proof.
  pose proof (cleanText_whitespace_is_space text) as Hsp.
  destruct (cleanText_single_spaced_trimmed text) as [Hss Ht].
  rewrite (cleanText_second_replace_idle (cleanText text)).
  rewrite (replace_whitespace_fixed _ Hsp Hss).
  now apply trim_fixed.
Qed.

End NormalizerFacts.

(** ** The chunks of the sliding window *)

Module WindowFacts.

Import Observations JsStringFacts ProcessDocumentChunker
  ProcessDocumentChunkerFacts.

Lemma slice_length {A} (s : list A) from to :
  0 <= from -> 0 <= to ->
  Z.of_nat (List.length (slice s from to)) <= Z.max (to - from) 0.
Proof.
  intros Hf Ht. unfold slice, rel_index.
  destruct (Z.ltb_spec from 0); [lia|].
  destruct (Z.ltb_spec to 0); [lia|].
  set (len := Z.of_nat (List.length s)).
  pose proof (firstn_le_length
                (Z.to_nat (Z.min to len - Z.min from len))
                (skipn (Z.to_nat (Z.min from len)) s)).
  lia.
Qed.

Lemma window_end_after clean chunkSize start :
  1 <= chunkSize -> start < window_end clean chunkSize start.
Proof.
  intros Hc. unfold window_end.
  destruct (start + chunkSize <? length clean); [|lia].
  set (bp := Z.max (lastIndexOf DOT clean (start + chunkSize))
                   (lastIndexOf LF clean (start + chunkSize))).
  destruct (Z.ltb_spec (2 * start + chunkSize) (2 * bp)); lia.
Qed.

(** A window is at most one character longer than [chunkSize]: the
    boundary search starts at index [end] itself. *)
Lemma window_end_bound clean chunkSize start :
  0 <= start -> 1 <= chunkSize ->
  window_end clean chunkSize start <= start + chunkSize + 1.
Proof.
  intros Hs Hc. unfold window_end.
  destruct (start + chunkSize <? length clean); [|lia].
  pose proof (lastIndexOf_bound DOT clean (start + chunkSize)).
  pose proof (lastIndexOf_bound LF clean (start + chunkSize)).
  set (bp := Z.max (lastIndexOf DOT clean (start + chunkSize))
                   (lastIndexOf LF clean (start + chunkSize))).
  destruct (2 * start + chunkSize <? 2 * bp); lia.
Qed.

Lemma chunk_loop_invariant (P : jsstring -> Prop) clean chunkSize overlap :
  1 <= chunkSize ->
  2 * overlap <= chunkSize ->
  (forall start,
      0 <= start ->
      let chunk := trim (slice clean start (window_end clean chunkSize start))
      in 0 < length chunk -> P chunk) ->
  forall fuel start chunks result,
    0 <= start ->
    Forall P chunks ->
    chunk_loop fuel clean chunkSize overlap start chunks = Some result ->
    Forall P result.
Proof.
  intros Hc Ho HP. induction fuel as [|fuel IH];
    intros start chunks result Hs Hall; [discriminate|].
  rewrite chunk_loop_S.
  destruct (start <? length clean); [|now intros [= <-]].
  cbv zeta. apply IH.
  - pose proof (window_end_progress clean chunkSize overlap 1 start Hc
                  ltac:(lia)).
    lia.
  - destruct (Z.ltb_spec 0
                (length (trim (slice clean start
                                 (window_end clean chunkSize start)))));
      [|exact Hall].
    apply Forall_app. split; [exact Hall|].
    constructor; [|constructor]. now apply HP.
Qed.

(** X3: Whenever [chunkSize >= 1] and [2 * overlap <= chunkSize], every
    chunk returned is trimmed and at most [chunkSize + 1] characters
    long, and when the cleaned text is longer than [chunkSize], no chunk
    is empty. *)
Theorem splitIntoChunks_chunk_bounds fuel text chunkSize overlap chunks :
  1 <= chunkSize ->
  2 * overlap <= chunkSize ->
  splitIntoChunks fuel text chunkSize overlap = Some chunks ->
  Forall (fun c => trimmed c /\ length c <= chunkSize + 1) chunks
  /\ (chunkSize < length (cleanText text) -> Forall (fun c => c <> []) chunks).
Proof.
  intros Hc Ho. unfold splitIntoChunks.
  destruct (Z.leb_spec (length (cleanText text)) chunkSize).
  - intros [= <-]. split; [|lia].
    constructor; [|constructor]. split; [|lia].
    apply cleanText_single_spaced_trimmed.
  - intros Hrun.
    apply (chunk_loop_invariant
             (fun c => (trimmed c /\ length c <= chunkSize + 1) /\ c <> []))
      in Hrun; try assumption; try lia; [| |constructor].
    + split; [|intros _]; eapply Forall_impl; try exact Hrun; simpl; tauto.
    + intros start Hs chunk Hpos. repeat split.
      * apply (proj1 (trim_trimmed _)).
      * apply (proj2 (trim_trimmed _)).
      * pose proof (trim_length
                      (slice (cleanText text) start
                         (window_end (cleanText text) chunkSize start))).
        pose proof (window_end_after (cleanText text) chunkSize start Hc).
        pose proof (slice_length (cleanText text) start
                      (window_end (cleanText text) chunkSize start) Hs
                      ltac:(lia)).
        pose proof (window_end_bound (cleanText text) chunkSize start Hs Hc).
        unfold chunk, length. lia.
      * intros E. unfold chunk in *. rewrite E in Hpos. discriminate Hpos.
Qed.

(** The bound is reached: with [chunkSize = 5] the first chunk of
    ["abcde.fghij"] has 6 characters. *)
Lemma splitIntoChunks_chunk_bounds_witness :
  splitIntoChunks 9 (js "abcde.fghij") 5 1
  = Some [js "abcde."; js ".fghi"; js "ij"]
  /\ Forall (fun c => trimmed c /\ length c <= 5 + 1)
       [js "abcde."; js ".fghi"; js "ij"].
Proof.
  split; [reflexivity|].
  exact (proj1 (splitIntoChunks_chunk_bounds 9 (js "abcde.fghij") 5 1 _
                  ltac:(lia) ltac:(lia) eq_refl)).
Defined.

Lemma splitIntoChunks_diverges_witness :
  splitIntoChunks 1000 (js "abcdefgh") 4 4 = None.
Proof.
  apply splitIntoChunks_diverges; [lia|vm_compute; reflexivity].
Defined.

End WindowFacts.

(** ** The chunks of the paragraph loop *)

Module ParagraphFacts.

Import Observations Invariants JsStringFacts RagPipelineChunker.

Lemma trimStart_keeps (s : jsstring) c :
  In c s -> is_whitespace c = false -> In c (trimStart s).
Proof.
  induction s as [|a r IH]; simpl; [auto|].
  intros [->|H] Hc.
  - rewrite Hc. now left.
  - destruct (is_whitespace a); [auto|]. now right.
Qed.

Lemma trim_keeps (s : jsstring) c :
  In c s -> is_whitespace c = false -> In c (trim s).
Proof.
  intros H Hc. unfold trim, trimEnd.
  apply -> in_rev. apply trimStart_keeps; [|exact Hc].
  apply in_rev. rewrite rev_involutive. now apply trimStart_keeps.
Qed.

Lemma inked_trim (s : jsstring) : inked s -> trim s <> [].
Proof.
  intros (c & Hin & Hc) E. apply (trim_keeps s c Hin) in Hc.
  rewrite E in Hc. destruct Hc.
Qed.

Lemma trim_inked (s : jsstring) : truthy (trim s) = true -> inked s.
Proof.
  intros H. pose proof (proj1 (trim_trimmed s)) as Hs.
  pose proof (trim_members s) as Hm.
  destruct (trim s) as [|c r]; [discriminate|].
  exists c. split; [apply Hm; now left|exact Hs].
Qed.

Lemma inked_app_r (a b : jsstring) : inked b -> inked (a ++ b).
Proof.
  intros (c & Hin & Hc). exists c. split; [|exact Hc].
  apply in_or_app. now right.
Qed.

Lemma nth_error_snoc {A} (l : list A) x n c :
  nth_error (l ++ [x]) n = Some c ->
  nth_error l n = Some c \/ (n = List.length l /\ c = x).
Proof.
  intros H. destruct (Nat.lt_ge_cases n (List.length l)) as [Hlt|Hge].
  - left. now rewrite nth_error_app1 in H.
  - right. rewrite nth_error_app2 in H by exact Hge.
    destruct (n - List.length l)%nat as [|k] eqn:Hk; simpl in H.
    + injection H as <-. split; [lia|reflexivity].
    + destruct k; discriminate H.
Qed.

Lemma step_well_formed text chunkSize overlap separator st paragraph :
  well_formed st -> inked paragraph ->
  well_formed (step text chunkSize overlap separator st paragraph).
Proof.
  intros (Hcur & Hall & Hidx & Hid) Hp. unfold step.
  destruct ((chunkSize <? length (currentChunk st) + length paragraph)
            && (0 <? length (currentChunk st))) eqn:Hflush.
  - apply andb_prop in Hflush. destruct Hflush as [_ Hpos].
    assert (Hink : inked (currentChunk st)).
    { destruct Hcur as [E|Hi]; [|exact Hi].
      rewrite E in Hpos. discriminate Hpos. }
    repeat split; simpl.
    + right. apply inked_app_r.
      destruct Hp as (c & Hin & Hc). exists c. split; [now right|exact Hc].
    + apply Forall_app. split; [exact Hall|].
      constructor; [|constructor]. simpl. now apply inked_trim.
    + rewrite length_app. simpl. lia.
    + intros n c H. apply nth_error_snoc in H.
      destruct H as [H|[-> ->]]; [now apply Hid|]. simpl. exact Hidx.
  - repeat split; simpl; try assumption.
    right. now apply inked_app_r, inked_app_r.
Qed.

Lemma fold_step_well_formed text chunkSize overlap separator paragraphs :
  Forall inked paragraphs ->
  forall st,
    well_formed st ->
    well_formed
      (fold_left (step text chunkSize overlap separator) paragraphs st).
Proof.
  induction 1 as [|p ps Hp _ IH]; intros st Hst; simpl; [exact Hst|].
  apply IH. now apply step_well_formed.
Qed.

(** X5: No chunk of [chunkDocument] has an empty content, and the chunks are
    numbered 0, 1, 2, ... in the order of the result. *)
Theorem chunkDocument_contents_and_ids text options :
  Forall (fun c => content c <> []) (chunkDocument text options)
  /\ forall n c,
       nth_error (chunkDocument text options) n = Some c ->
       id c = Z.of_nat n.
Proof.
  unfold chunkDocument.
  set (chunkSize := num_or (opt_chunkSize options) 1000).
  set (overlap := num_or (opt_overlap options) 200).
  set (separator := str_or (opt_separator options) [LF; LF]).
  set (paragraphs := filter _ _).
  assert (Hps : Forall inked paragraphs).
  { apply Forall_forall. intros p Hp. apply filter_In in Hp.
    now apply trim_inked. }
  assert (Hinit : well_formed (mkLoop [] [] 0)).
  { repeat split; simpl; auto. intros [|n] c H; discriminate H. }
  pose proof (fold_step_well_formed text chunkSize overlap separator
                paragraphs Hps _ Hinit) as (Hcur & Hall & Hidx & Hid).
  set (st := fold_left _ _ _) in *.
  destruct (truthy (trim (currentChunk st))) eqn:Hlast.
  - split.
    + apply Forall_app. split; [exact Hall|].
      constructor; [|constructor]. simpl. intros E.
      rewrite E in Hlast. discriminate Hlast.
    + intros n c H. apply nth_error_snoc in H.
      destruct H as [H|[-> ->]]; [now apply Hid|]. simpl. exact Hidx.
  - split; assumption.
Qed.

Lemma split_scan_members sep (s : jsstring) :
  forall cur skip p x,
    In p (split_scan sep s cur skip) -> In x p -> In x s \/ In x cur.
Proof.
  induction s as [|c r IH]; intros cur skip p x; simpl.
  - intros [<-|[]] Hx. right. now apply in_rev.
  - destruct skip as [|k].
    + destruct (is_prefix sep (c :: r)).
      * intros [<-|Hp] Hx.
        -- right. now apply in_rev.
        -- destruct (IH _ _ _ _ Hp Hx) as [H|[]]. left. now right.
      * intros Hp Hx. destruct (IH _ _ _ _ Hp Hx) as [H|[<-|H]]; auto.
    + intros Hp Hx. destruct (IH _ _ _ _ Hp Hx) as [H|H]; auto.
Qed.

Lemma trimStart_blank (s : jsstring) :
  (forall x, In x s -> is_whitespace x = true) -> trimStart s = [].
Proof.
  induction s as [|c r IH]; intros H; simpl; [reflexivity|].
  rewrite (H c (or_introl eq_refl)). apply IH.
  intros x Hx. apply H. now right.
Qed.

Lemma filter_none {A} (f : A -> bool) (l : list A) :
  (forall x, In x l -> f x = false) -> filter f l = [].
Proof.
  induction l as [|a l IH]; intros H; simpl; [reflexivity|].
  rewrite (H a (or_introl eq_refl)). apply IH.
  intros x Hx. apply H. now right.
Qed.

(** X6: A text that holds nothing but whitespace, the empty text included,
    gives no chunk at all. *)
Theorem chunkDocument_blank text options :
  (forall x, In x text -> is_whitespace x = true) ->
  chunkDocument text options = [].
Proof.
  intros Hblank. unfold chunkDocument.
  set (separator := str_or (opt_separator options) [LF; LF]).
  assert (Hf : filter (fun p => truthy (trim p)) (split text separator) = []).
  { apply filter_none. intros p Hp.
    assert (Hb : trim p = []).
    { unfold trim. rewrite trimStart_blank; [reflexivity|].
      intros x Hx. unfold split in Hp.
      destruct (split_scan_members _ _ _ _ _ _ Hp Hx) as [H|[]].
      now apply Hblank. }
    now rewrite Hb. }
  rewrite Hf. reflexivity.
Qed.

Lemma chunkDocument_blank_witness :
  chunkDocument (js "  " ++ [LF; LF] ++ js " ") no_options = [].
Proof.
  apply chunkDocument_blank. intros x Hx. simpl in Hx.
  repeat destruct Hx as [<-|Hx]; try reflexivity. destruct Hx.
Defined.

Lemma is_prefix_refl (s : jsstring) : is_prefix s s = true.
Proof.
  induction s as [|c r IH]; simpl; [reflexivity|].
  now rewrite N.eqb_refl.
Qed.

Lemma indexOf_self (s : jsstring) : indexOf s s = 0.
Proof.
  unfold indexOf. destruct s as [|c r]; simpl; [reflexivity|].
  now rewrite N.eqb_refl, is_prefix_refl.
Qed.

Lemma split_scan_no_separator sep (s : jsstring) :
  (forall k, is_prefix sep (skipn k s) = false) ->
  forall cur, split_scan sep s cur O = [rev cur ++ s].
Proof.
  induction s as [|c r IH]; intros Hno cur; simpl.
  - now rewrite app_nil_r.
  - pose proof (Hno O) as H0. simpl in H0. rewrite H0. rewrite IH.
    + simpl. now rewrite <- app_assoc.
    + intros k. exact (Hno (S k)).
Qed.

(** X7: A text in which the separator does not occur is never split: it
    comes back as one chunk that spans the whole text, however long the
    text is. *)
Theorem chunkDocument_single_paragraph text options :
  (forall k,
      is_prefix (str_or (opt_separator options) [LF; LF]) (skipn k text)
      = false) ->
  inked text ->
  chunkDocument text options = [mkChunk 0 (trim text) 0 (length text)].
Proof.
  intros Hno Hink. unfold chunkDocument, split.
  rewrite (split_scan_no_separator _ _ Hno []). simpl rev. simpl app.
  assert (Ht : truthy (trim text) = true).
  { pose proof (inked_trim text Hink). now destruct (trim text). }
  simpl filter. rewrite Ht.
  assert (Hst : forall chunkSize overlap separator,
             fold_left (step text chunkSize overlap separator) [text]
               (mkLoop [] [] 0)
             = mkLoop [] text 0).
  { intros. simpl. unfold step. simpl currentChunk.
    change (0 <? length []) with false. now rewrite andb_false_r. }
  rewrite Hst. simpl currentChunk. rewrite Ht.
  unfold make_chunk. simpl. now rewrite indexOf_self.
Qed.

Lemma chunkDocument_single_paragraph_witness :
  chunkDocument (repeat 97%N 1500) (mkOptions (Some 100) None None)
  = [mkChunk 0 (repeat 97%N 1500) 0 1500].
Proof.
  rewrite (chunkDocument_single_paragraph (repeat 97%N 1500)
             (mkOptions (Some 100) None None)).
  - reflexivity.
  - intros k. simpl str_or.
    assert (H : forall n, skipn k (repeat 97%N n) = repeat 97%N (n - k)).
    { clear. revert k. induction k as [|k IH]; intros n; simpl.
      - now rewrite Nat.sub_0_r.
      - destruct n; simpl; [reflexivity|]. apply IH. }
    rewrite H. destruct (1500 - k)%nat; reflexivity.
  - exists 97%N. split; [now left|reflexivity].
Defined.

End ParagraphFacts.

(** ** What retrieval does to the world, and what the route makes of it *)

Module RetrievalFacts.

Import Observations Scenarios EffectsFacts RagFacts.

(** The embedding step makes one outbound call when a key is set, none
    otherwise, and touches nothing else. *)
Lemma generateQueryEmbedding_state E query w r w' :
  Rag.generateQueryEmbedding E query w = (r, w') ->
  w' = if is_set (GEMINI_API_KEY E) then called w [query] else w.
Proof.
  unfold Rag.generateQueryEmbedding.
  destruct (is_set (GEMINI_API_KEY E)); simpl.
  - unfold bind, fetch_embedContent, called.
    destruct (embed_endpoint E _ query) as [e|[e|err]|[e|[values|]]];
      unfold throw, ret; now intros [= _ <-].
  - unfold throw. now intros [= _ <-].
Qed.

(** The answer of the RPC: an error, or at most [k] rows. *)
Lemma rpc_match_documents_answer E qe thr k w :
  exists r,
    ChunkStore.rpc_match_documents E qe thr k w = (Ok r, w)
    /\ (World.error r = None ->
        exists rows,
          data r = Some rows
          /\ 0 <= Z.of_nat (List.length rows) <= Z.max 0 k).
Proof.
  unfold ChunkStore.rpc_match_documents.
  destruct (rpc_failure E qe thr k);
    [eexists; split; [reflexivity|discriminate]|].
  destruct qe as [v|]; [|eexists; split; [reflexivity|discriminate]].
  destruct (ChunkStore.match_documents (cosine_distance E) (index_scan E)
              (document_chunks w) v (Finite thr) k) as [e|rows] eqn:Hm;
    [eexists; split; [reflexivity|discriminate]|].
  eexists. split; [reflexivity|]. intros _. eexists. split; [reflexivity|].
  apply ChunkStoreFacts.match_documents_sound in Hm. lia.
Qed.

(** The answer of the fallback read: an error, or at most [k] rows. *)
Lemma select_limit_answer E k w :
  exists r,
    ChunkStore.select_limit E k w = (Ok r, w)
    /\ (World.error r = None ->
        exists rows,
          data r = Some rows
          /\ 0 <= Z.of_nat (List.length rows) <= Z.max 0 k).
Proof.
  unfold ChunkStore.select_limit.
  destruct (select_failure E _ k);
    [eexists; split; [reflexivity|discriminate]|].
  destruct (Z.ltb_spec k 0);
    [eexists; split; [reflexivity|discriminate]|].
  eexists. split; [reflexivity|]. intros _. eexists. split; [reflexivity|].
  pose proof (firstn_le_length (Z.to_nat k) (document_chunks w)). lia.
Qed.

Lemma retrieveContext_run E query topK w :
  let k := match topK with Some k => k | None => Rag.TOP_K end in
  exists c,
    Rag.retrieveContext E query topK w
    = (Ok c, snd (Rag.generateQueryEmbedding E query w))
    /\ 0 <= Rag.chunks c <= Z.max 0 k.
Proof.
  intros k. unfold Rag.retrieveContext, try_catch, bind. fold k.
  pose proof (finishes_generateQueryEmbedding E query w) as Hfin.
  destruct (Rag.generateQueryEmbedding E query w) as [[qe|e|] w1];
    simpl in *; [| |congruence].
  2:{ eexists. split; [reflexivity|]. simpl. lia. }
  unfold ChunkStore.createServiceClient.
  destruct (is_set (SUPABASE_URL E) && is_set (SUPABASE_SERVICE_ROLE_KEY E)).
  2:{ eexists. split; [reflexivity|]. simpl. lia. }
  unfold ret at 1.
  destruct (rpc_match_documents_answer E qe (1 # 2) k w1) as (r & -> & Hr).
  destruct (World.error r) as [e|].
  - destruct (select_limit_answer E k w1) as (f & -> & Hf).
    destruct (World.error f) as [e'|].
    + eexists. split; [reflexivity|]. simpl. lia.
    + destruct (Hf eq_refl) as (rows & -> & Hlen).
      eexists. split; [reflexivity|]. simpl. lia.
  - destruct (Hr eq_refl) as (rows & -> & Hlen).
    eexists. split; [reflexivity|]. simpl. lia.
Qed.

(** X8: [retrieveContext] only reads: both tables are what they were, and
    it makes exactly one outbound call, for the query, when a key is
    set, and none otherwise. *)
Theorem retrieveContext_read_only E query topK w r w' :
  Rag.retrieveContext E query topK w = (r, w') ->
  document_chunks w' = document_chunks w
  /\ World.embeddings w' = World.embeddings w
  /\ fetch_log w'
     = if is_set (GEMINI_API_KEY E) then fetch_log w ++ [query]
       else fetch_log w.
Proof.
  destruct (retrieveContext_run E query topK w) as (c & -> & _).
  intros [= _ <-].
  destruct (Rag.generateQueryEmbedding E query w) as [r1 w1] eqn:Hq.
  apply generateQueryEmbedding_state in Hq. simpl. subst w1.
  destruct (is_set (GEMINI_API_KEY E)); auto.
Qed.

Lemma retrieveContext_read_only_witness :
  fetch_log
    (snd (Rag.retrieveContext (deployment key [] None) (js "sea view")
            None loaded_state)) = [js "sea view"]
  /\ document_chunks
       (snd (Rag.retrieveContext (deployment key [] None) (js "sea view")
               None loaded_state)) = stored.
Proof.
  destruct (retrieveContext_read_only (deployment key [] None)
              (js "sea view") None loaded_state _ _ eq_refl)
    as (Ht & _ & Hl).
  split; [exact Hl|exact Ht].
Defined.

(** X9: The chunk count of the result is never negative and never above
    [topK] (5 when [topK] is not given). *)
Theorem retrieveContext_chunk_count E query topK w c w' :
  Rag.retrieveContext E query topK w = (Ok c, w') ->
  0 <= Rag.chunks c
       <= Z.max 0 (match topK with Some k => k | None => Rag.TOP_K end).
Proof.
  destruct (retrieveContext_run E query topK w) as (c' & -> & H).
  now intros [= <- _].
Qed.

Lemma retrieveContext_chunk_count_witness :
  exists c w',
    Rag.retrieveContext (deployment key [] None) (js "sea view") (Some 1)
      loaded_state = (Ok c, w')
    /\ Rag.chunks c = 1.
Proof.
  eexists. eexists. split; [reflexivity|].
  pose proof (retrieveContext_chunk_count (deployment key [] None)
                (js "sea view") (Some 1) loaded_state _ _ eq_refl) as H.
  simpl in H. reflexivity.
Defined.




(** X11: The route on a query that is not blank: the answer is a 200 built
    from what [retrieveContext] resolved to, with the source
    ["unknown"] when that result carries no tag. [retrieveContext]
    never throws, so the simple search the route keeps for that case
    is never run: the answer does not depend on its reads. *)
Theorem ragRoute_answer R E query w :
  trim query <> [] ->
  exists c w',
    Rag.retrieveContext E query None w = (Ok c, w')
    /\ RagRoute.ragRoute R E (RagRoute.Text query) w
       = (Ok (RagRoute.mkHttp 200
                (RagRoute.mkBody (Rag.context c) (Some (Rag.chunks c))
                   (Some (RagRoute.source_name (Rag.source c))) None)),
          w').
Proof.
  intros Hq.
  destruct (retrieveContext_run E query None w) as (c & Hc & _).
  exists c. eexists. split; [exact Hc|].
  unfold RagRoute.ragRoute.
  assert (Ht : truthy (trim query) = true) by now destruct (trim query).
  assert (Hn : truthy query = true).
  { destruct query; [|reflexivity]. now elim Hq. }
  rewrite Ht, Hn. simpl negb. simpl orb. cbv iota.
  unfold try_catch, bind. rewrite Hc. reflexivity.
Qed.

Lemma ragRoute_answer_witness :
  RagRoute.ragRoute
    (RagRoute.mkReads (fun _ _ => mkResponse None None)
       (fun _ => mkResponse None None))
    (deployment key [0%nat] no_function)
    (RagRoute.Text (js "refund policy")) loaded_state
  = (Ok (RagRoute.mkHttp 200
           (RagRoute.mkBody [] (Some 0) (Some (js "unknown")) None)),
     mkState [js "refund policy"] stored []).
Proof.
  destruct (ragRoute_answer
              (RagRoute.mkReads (fun _ _ => mkResponse None None)
                 (fun _ => mkResponse None None))
              (deployment key [0%nat] no_function) (js "refund policy")
              loaded_state ltac:(vm_compute; discriminate))
    as (c & w' & Hc & Hr).
  vm_compute in Hc. injection Hc as <- <-. exact Hr.
Defined.

(** A request without a usable query is refused with a 400, or a 500
    when the parameter is not a string, before anything is looked up:
    no outbound call, no read. *)
Theorem ragRoute_bad_request R E q w :
  match q with
  | RagRoute.Text query => trim query = []
  | _ => True
  end ->
  exists st message,
    RagRoute.ragRoute R E q w
    = (Ok (RagRoute.mkHttp st
             (RagRoute.mkBody [] None None (Some message))), w)
    /\ (st = 400 \/ st = 500).
Proof.
  intros Hq. unfold RagRoute.ragRoute, try_catch.
  destruct q as [|query|].
  - eexists. eexists. split; [reflexivity|]. now left.
  - rewrite Hq. simpl. rewrite orb_true_r.
    eexists. eexists. split; [reflexivity|]. now left.
  - eexists. eexists. split; [reflexivity|]. now right.
Qed.

Lemma ragRoute_bad_request_witness :
  RagRoute.ragRoute
    (RagRoute.mkReads (fun _ _ => mkResponse None None)
       (fun _ => mkResponse None None))
    (deployment key [] None) (RagRoute.Text (js "   ")) loaded_state
  = (Ok (RagRoute.mkHttp 400
           (RagRoute.mkBody [] None None
              (Some (js "Query parameter is required")))), loaded_state).
Proof.
  destruct (ragRoute_bad_request
              (RagRoute.mkReads (fun _ _ => mkResponse None None)
                 (fun _ => mkResponse None None))
              (deployment key [] None) (RagRoute.Text (js "   "))
              loaded_state eq_refl) as (st & message & Hr & _).
  pose proof Hr as Hv. vm_compute in Hv. injection Hv as <- <-. exact Hr.
Defined.

End RetrievalFacts.

(** ** Ingestion: what is stored, and when nothing is *)

Module IngestionFacts.

Import Observations Scenarios EffectsFacts GatewayFacts RagFacts StorageFacts.

Lemma prepare_rows_contents documentId chunks :
  forall embeddings,
    map erow_content (RagPipeline.prepare_rows documentId chunks embeddings)
    = map RagPipelineChunker.content chunks.
Proof.
  induction chunks as [|c r IH]; intros embeddings; simpl; [reflexivity|].
  now rewrite IH.
Qed.

(** X12: [storeVectors] always resolves, never touches [document_chunks], and
    stores all the chunks or none: on success the [embeddings] table has
    grown by one row per chunk, in the order of the chunks, the count
    reported is the number of chunks and one outbound call was made per
    chunk; on failure the table is what it was. *)
Theorem storeVectors_all_or_nothing E documentId chunks w :
  exists r w',
    RagPipeline.storeVectors E documentId chunks w = (Ok r, w')
    /\ document_chunks w' = document_chunks w
    /\ (RagPipeline.success r = true ->
        exists rows,
          World.embeddings w' = World.embeddings w ++ rows
          /\ map erow_content rows = map RagPipelineChunker.content chunks
          /\ RagPipeline.count r = Some (Z.of_nat (List.length chunks))
          /\ fetch_log w'
             = fetch_log w ++ map RagPipelineChunker.content chunks)
    /\ (RagPipeline.success r = false ->
        World.embeddings w' = World.embeddings w
        /\ RagPipeline.count r = None).
Proof.
  unfold RagPipeline.storeVectors.
  destruct (isConfigured_supabase E) eqn:Hs; simpl;
    [|eexists; eexists; split; [reflexivity|];
      repeat split; auto; discriminate].
  destruct (isConfigured_gemini E) eqn:Hg; simpl;
    [|eexists; eexists; split; [reflexivity|];
      repeat split; auto; discriminate].
  unfold try_catch. unfold bind at 1.
  unfold GeminiClient.generateEmbeddings. rewrite Hg. simpl.
  destruct (promise_all_generateEmbedding E
              (map RagPipelineChunker.content chunks) Hg w)
    as (results & Hr & _).
  unfold try_catch, bind at 1. rewrite Hr. unfold ret at 1.
  simpl GeminiClient.batch_error. cbv iota.
  destruct (ChunkStore.getSupabase E); simpl;
    [|eexists; eexists; split; [reflexivity|];
      repeat split; auto; discriminate].
  unfold bind, ChunkStore.insert_embeddings. simpl.
  destruct (embeddings_insert_failure E (World.embeddings w) _) as [e|];
    simpl.
  - eexists. eexists. split; [reflexivity|].
    repeat split; auto; discriminate.
  - eexists. eexists. split; [reflexivity|]. simpl.
    repeat split; try discriminate.
    intros _. eexists. split; [reflexivity|].
    rewrite prepare_rows_contents. repeat split.
    rewrite <- (length_map erow_content), prepare_rows_contents.
    now rewrite length_map.
Qed.

Lemma processDocument_drops_failed_embeddings_witness :
  exists r w',
    ProcessDocument.processDocument (deployment key [0%nat] None)
      (js "Two bedroom flats") (js "doc-1") ProcessDocument.PDF
      (js "brochure") empty_state = (Ok r, w')
    /\ ProcessDocument.chunks_created r = 0
    /\ ProcessDocument.total_chunks r = Some 1
    /\ document_chunks w' = [].
Proof.
  eexists. eexists. split; [reflexivity|].
  destruct (processDocument_drops_failed_embeddings
              (deployment key [0%nat] None) (js "Two bedroom flats")
              (js "doc-1") ProcessDocument.PDF (js "brochure") empty_state
              _ _ eq_refl eq_refl) as (text & chunks & vs & new & _).
  repeat split.
Defined.

(** X15: A document that cannot be processed changes nothing: for a type
    that is neither PDF nor DOCX, and for an extracted text of fewer than
    10 characters, the result is a failure with [chunks_created = 0],
    and no outbound call is made and no row stored. *)
Theorem processDocument_rejects E buffer documentId mimeType documentType w :
  (ProcessDocument.jsstring_eqb mimeType ProcessDocument.PDF = false ->
   ProcessDocument.jsstring_eqb mimeType ProcessDocument.DOCX = false ->
   ProcessDocument.processDocument E buffer documentId mimeType documentType w
   = (Ok (ProcessDocument.mkProcessed false None 0 None
            (Some (js "Unsupported file type: " ++ mimeType))), w))
  /\ (forall text,
        ProcessDocument.extractText E buffer mimeType w = (Ok text, w) ->
        length text < 10 ->
        ProcessDocument.processDocument E buffer documentId mimeType
          documentType w
        = (Ok (ProcessDocument.mkProcessed false None 0 None
                 (Some (js "Document contains no extractable text"))), w)).
Proof.
  split.
  - intros Hp Hd.
    unfold ProcessDocument.processDocument, try_catch, bind,
      ProcessDocument.extractText.
    now rewrite Hp, Hd.
  - intros text Hx Hlen.
    unfold ProcessDocument.processDocument, try_catch, bind.
    rewrite Hx.
    destruct (Z.ltb_spec (length text) 10); [|lia].
    now rewrite orb_true_r.
Qed.

Lemma processDocument_rejects_witness :
  ProcessDocument.processDocument (deployment key [] None) (js "hello")
    (js "doc-1") (js "text/plain") (js "brochure") empty_state
  = (Ok (ProcessDocument.mkProcessed false None 0 None
           (Some (js "Unsupported file type: text/plain"))), empty_state)
  /\ ProcessDocument.processDocument (deployment key [] None) (js "hello")
       (js "doc-1") ProcessDocument.PDF (js "brochure") empty_state
     = (Ok (ProcessDocument.mkProcessed false None 0 None
              (Some (js "Document contains no extractable text"))),
        empty_state).
Proof.
  split.
  - apply (proj1 (processDocument_rejects (deployment key [] None)
                    (js "hello") (js "doc-1") (js "text/plain")
                    (js "brochure") empty_state)); reflexivity.
  - apply (proj2 (processDocument_rejects (deployment key [] None)
                    (js "hello") (js "doc-1") ProcessDocument.PDF
                    (js "brochure") empty_state) (js "hello"));
      [reflexivity|vm_compute; reflexivity].
Defined.

(** X16: The Supabase configuration is looked at only when the chunks are
    about to be saved: with a Gemini key but without the Supabase URL or
    service key, a document of 10 characters or more is chunked, one
    outbound call is made for every chunk, and then the processing
    fails, with nothing stored. *)
Theorem processDocument_supabase_checked_last E buffer documentId mimeType
    documentType w text :
  ProcessDocument.extractText E buffer mimeType w = (Ok text, w) ->
  10 <= length text ->
  is_set (GEMINI_API_KEY E) = true ->
  is_set (SUPABASE_URL E) && is_set (SUPABASE_SERVICE_ROLE_KEY E) = false ->
  exists chunks,
    ProcessDocumentChunker.splitIntoChunks
      (ProcessDocument.chunk_fuel (ProcessDocumentChunker.cleanText text)
         ProcessDocumentChunker.CHUNK_SIZE ProcessDocumentChunker.CHUNK_OVERLAP)
      text ProcessDocumentChunker.CHUNK_SIZE
      ProcessDocumentChunker.CHUNK_OVERLAP = Some chunks
    /\ ProcessDocument.processDocument E buffer documentId mimeType
         documentType w
       = (Ok (ProcessDocument.mkProcessed false None 0 None
                (Some (js "Missing SUPABASE_URL or SUPABASE_SERVICE_ROLE_KEY"))),
          called w chunks).
Proof.
  intros Hx Hlen Hk Hs.
  destruct (default_chunking_returns text) as [chunks Hc].
  exists chunks. split; [exact Hc|].
  unfold ProcessDocument.processDocument, try_catch. unfold bind at 1.
  rewrite Hx.
  assert (Ht : truthy text = true).
  { destruct text; [|reflexivity]. unfold length in Hlen. simpl in Hlen. lia. }
  rewrite Ht. destruct (Z.ltb_spec (length text) 10); [lia|].
  cbn [negb orb]. unfold bind at 1, of_fuel. rewrite Hc.
  unfold bind at 1. unfold ProcessDocument.generateEmbeddings.
  rewrite Hk. cbn [negb]. rewrite embed_loop_run.
  unfold ProcessDocument.saveChunksToSupabase, bind,
    ChunkStore.createServiceClient.
  now rewrite Hs.
Qed.

Lemma processDocument_supabase_checked_last_witness :
  ProcessDocument.processDocument
    (mkEnv key None None None (endpoint []) unit_distance sequential_scan
       (fun _ _ _ => None) (fun _ _ => None) (fun _ _ => Inserted)
       (fun _ _ => None) true (fun b => inl b) (fun b => inl b))
    (js "Two bedroom flats") (js "doc-1") ProcessDocument.PDF
    (js "brochure") empty_state
  = (Ok (ProcessDocument.mkProcessed false None 0 None
           (Some (js "Missing SUPABASE_URL or SUPABASE_SERVICE_ROLE_KEY"))),
     mkState [js "Two bedroom flats"] [] []).
Proof.
  destruct (processDocument_supabase_checked_last
              (mkEnv key None None None (endpoint []) unit_distance
                 sequential_scan (fun _ _ _ => None) (fun _ _ => None) (fun _ _ => Inserted)
                 (fun _ _ => None) true (fun b => inl b) (fun b => inl b))
              (js "Two bedroom flats") (js "doc-1") ProcessDocument.PDF
              (js "brochure") empty_state (js "Two bedroom flats")
              eq_refl ltac:(vm_compute; discriminate) eq_refl eq_refl)
    as (chunks & Hc & Hr).
  vm_compute in Hc. injection Hc as <-. exact Hr.
Defined.

Lemma save_loop_all E documentId documentType chunks :
  (forall table row, insert_outcome E table row = Inserted) ->
  forall vs savedCount w,
    List.length vs = List.length chunks ->
    exists rows,
      ProcessDocument.save_loop E chunks (map Some vs) documentId
        documentType savedCount w
      = (Ok (savedCount + Z.of_nat (List.length chunks)),
         mkState (fetch_log w) (document_chunks w ++ rows)
           (World.embeddings w))
      /\ map row_content rows = chunks.
Proof.
  intros Hacc. induction chunks as [|c r IH]; intros vs n w Hl.
  - exists []. simpl. unfold ret. rewrite app_nil_r, Z.add_0_r.
    destruct w; split; reflexivity.
  - destruct vs as [|v vs]; [discriminate Hl|]. injection Hl as Hl.
    simpl ProcessDocument.save_loop.
    unfold bind at 1, try_catch, bind, ChunkStore.insert_chunk.
    rewrite Hacc. unfold ret at 1.
    match goal with
    | |- context [ProcessDocument.save_loop _ _ _ _ _ _ ?w'] =>
        destruct (IH vs (n + 1) w' Hl) as (rows & Hr & Hm)
    end.
    eexists (_ :: rows). rewrite Hr. simpl.
    rewrite <- app_assoc. simpl. split.
    + f_equal. f_equal. lia.
    + simpl. now rewrite Hm.
Qed.

(** X17: What was stored comes back. When the database accepts every insert
    and every chunk has an embedding, [saveChunksToSupabase] reports all
    the chunks saved and appends them to the table in order; and a
    later [retrieveContext] that takes the fallback branch with a
    [topK] of at least the size of the table resolves to the contents of
    the table, these chunks last, joined by the separator. *)
Theorem stored_chunks_come_back E chunks vs documentId documentType w :
  (forall table row, insert_outcome E table row = Inserted) ->
  is_set (SUPABASE_URL E) && is_set (SUPABASE_SERVICE_ROLE_KEY E) = true ->
  List.length vs = List.length chunks ->
  exists w1,
    ProcessDocument.saveChunksToSupabase E chunks (map Some vs) documentId
      documentType w
    = (Ok (Z.of_nat (List.length chunks)), w1)
    /\ map row_content (document_chunks w1)
       = map row_content (document_chunks w) ++ chunks
    /\ forall query k qe w2 m,
         Rag.generateQueryEmbedding E query w1 = (Ok qe, w2) ->
         rpc_error E qe k w2 = Some m ->
         select_failure E (document_chunks w1) k = None ->
         Z.of_nat (List.length (document_chunks w1)) <= k ->
         Rag.retrieveContext E query (Some k) w1
         = (Ok (Rag.mkContext
                  (join Rag.separator
                     (map row_content (document_chunks w) ++ chunks))
                  (Z.of_nat (List.length (document_chunks w)
                             + List.length chunks))
                  (Some Rag.fallback) None), w2).
Proof.
  intros Hacc Hs Hl.
  destruct (save_loop_all E documentId documentType chunks Hacc vs 0 w Hl)
    as (rows & Hr & Hm).
  eexists. split; [|split].
  - unfold ProcessDocument.saveChunksToSupabase, bind,
      ChunkStore.createServiceClient.
    rewrite Hs. unfold ret at 1. rewrite Hr. reflexivity.
  - simpl. now rewrite map_app, Hm.
  - simpl document_chunks. intros query k qe w2 m Hq Hrpc Hsel Hk.
    pose proof (generateQueryEmbedding_tables _ _ _ _ _ Hq) as Ht.
    simpl in Ht.
    unfold rpc_error in Hrpc.
    destruct (rpc_match_documents_run E qe (1 # 2) k w2) as [r Hrun].
    rewrite Hrun in Hrpc. simpl in Hrpc.
    unfold Rag.retrieveContext, try_catch, bind. rewrite Hq.
    unfold ChunkStore.createServiceClient. rewrite Hs. unfold ret at 1.
    rewrite Hrun, Hrpc. unfold ChunkStore.select_limit.
    rewrite Ht, Hsel.
    destruct (Z.ltb_spec k 0); [lia|].
    rewrite firstn_all2 by lia.
    unfold ret. simpl.
    rewrite map_app, Hm, length_app, <- Hm, length_map. reflexivity.
Qed.

Lemma stored_chunks_come_back_witness :
  exists w1 w2,
    ProcessDocument.saveChunksToSupabase (deployment key [] no_function)
      [js "Sea view"; js "Pool"] (map Some [unit_x; unit_y]) (js "doc-3")
      (js "brochure") empty_state = (Ok 2, w1)
    /\ Rag.retrieveContext (deployment key [] no_function) (js "amenities")
         (Some 5) w1
       = (Ok (Rag.mkContext (js "Sea view" ++ Rag.separator ++ js "Pool") 2
                (Some Rag.fallback) None), w2).
Proof.
  destruct (stored_chunks_come_back (deployment key [] no_function)
              [js "Sea view"; js "Pool"] [unit_x; unit_y] (js "doc-3")
              (js "brochure") empty_state
              ltac:(reflexivity) eq_refl eq_refl) as (w1 & Hs & _ & Hback).
  exists w1. eexists. split; [exact Hs|].
  pose proof Hs as Hv. vm_compute in Hv. injection Hv as Hw.
  apply (Hback (js "amenities") 5 (Some unit_x) _
           (js "Could not find the function match_documents")).
  - rewrite <- Hw. reflexivity.
  - rewrite <- Hw. reflexivity.
  - reflexivity.
  - rewrite <- Hw. vm_compute. discriminate.
Defined.

End IngestionFacts.

(** ** The environment loader *)

Module EnvJsFacts.

Import EnvJs.

Lemma eqb_eq a b : eqb a b = true <-> a = b.
Proof.
  unfold eqb. destruct (list_eq_dec N.eq_dec a b); split; congruence.
Qed.

Lemma eqb_neq a b : a <> b -> eqb a b = false.
Proof. unfold eqb. destruct (list_eq_dec N.eq_dec a b); congruence. Qed.

Lemma own_put_same E key value : own (put E key value) key = Some value.
Proof.
  induction E as [|[k v] r IH]; simpl.
  - now rewrite (proj2 (eqb_eq key key) eq_refl).
  - destruct (eqb k key) eqn:Hk; simpl; now rewrite Hk.
Qed.

Lemma own_put_other E key value key' :
  key' <> key -> own (put E key value) key' = own E key'.
Proof.
  intros Hne. induction E as [|[k v] r IH]; simpl.
  - rewrite eqb_neq; [reflexivity|congruence].
  - destruct (eqb k key) eqn:Hk; simpl.
    + apply eqb_eq in Hk. subst k.
      rewrite eqb_neq; [reflexivity|congruence].
    + now rewrite IH.
Qed.

(** X18: What was set is what is read. For a key that [ENV] has,
    [getEnv(key)] after [setEnv(key, value)] is [value] and every other
    key reads as before; for any other key [setEnv] does nothing. *)
Theorem setEnv_getEnv E key value :
  (hasOwnProperty E key = true ->
   getEnv (setEnv E key value) key = Str value
   /\ forall key', key' <> key ->
        getEnv (setEnv E key value) key' = getEnv E key')
  /\ (hasOwnProperty E key = false -> setEnv E key value = E).
Proof.
  unfold setEnv. split; intros H; rewrite H; [|reflexivity].
  unfold getEnv. split.
  - now rewrite own_put_same.
  - intros key' Hne. now rewrite own_put_other.
Qed.

Lemma setEnv_getEnv_witness :
  getEnv (setEnv initial (js "GEMINI_API_KEY") (js "AIza-key"))
    (js "GEMINI_API_KEY") = Str (js "AIza-key")
  /\ getEnv (setEnv initial (js "GEMINI_API_KEY") (js "AIza-key"))
       (js "EMBEDDING_MODEL") = Str (js "text-embedding-004")
  /\ setEnv initial (js "OPENAI_API_KEY") (js "sk-key") = initial.
Proof.
  destruct (setEnv_getEnv initial (js "GEMINI_API_KEY") (js "AIza-key"))
    as [Hown _].
  destruct (Hown eq_refl) as [Hsame Hother].
  split; [exact Hsame|]. split.
  - rewrite Hother; [reflexivity|discriminate].
  - apply (proj2 (setEnv_getEnv initial (js "OPENAI_API_KEY") (js "sk-key"))).
    reflexivity.
Defined.

(** X19: [validateEnv] reports no warning exactly when the three services
    are configured. *)
Theorem validateEnv_isConfigured E :
  validateEnv E = true
  <-> isConfigured E (js "gemini") = true
      /\ isConfigured E (js "supabase") = true
      /\ isConfigured E (js "maps") = true.
Proof.
  unfold validateEnv, warnings.
  change (isConfigured E (js "gemini"))
    with (truthy (field E (js "GEMINI_API_KEY"))).
  change (isConfigured E (js "supabase"))
    with (truthy (field E (js "SUPABASE_URL"))
          && truthy (field E (js "SUPABASE_ANON_KEY"))).
  change (isConfigured E (js "maps"))
    with (truthy (field E (js "MAPS_API_KEY"))).
  simpl filter.
  destruct (truthy (field E (js "GEMINI_API_KEY")));
    destruct (truthy (field E (js "SUPABASE_URL")));
    destruct (truthy (field E (js "SUPABASE_ANON_KEY")));
    destruct (truthy (field E (js "MAPS_API_KEY")));
    simpl; split; try tauto; try discriminate;
    intros (? & ? & ?); discriminate.
Qed.

Lemma load_key_keeps source E name_key key :
  truthy (field E key) = true ->
  truthy (field (load_key source E name_key) key) = true.
Proof.
  intros H. destruct name_key as [name k]. unfold load_key, field at 1.
  destruct (list_eq_dec N.eq_dec key k) as [->|Hne].
  - rewrite own_put_same.
    destruct (source name) as [v|]; [|exact H].
    destruct (truthy v) eqn:Hv; [exact Hv|exact H].
  - rewrite own_put_other by exact Hne. exact H.
Qed.

Lemma loadEnv_keeps process_env import_meta_env E key :
  truthy (field E key) = true ->
  truthy (field (loadEnv process_env import_meta_env E) key) = true.
Proof.
  assert (Hfold : forall source names E0,
             truthy (field E0 key) = true ->
             truthy (field (fold_left (load_key source) names E0) key)
             = true).
  { intros source names. induction names as [|n r IH]; intros E0 H0; simpl;
      [exact H0|]. apply IH. now apply load_key_keeps. }
  intros H. unfold loadEnv.
  destruct import_meta_env; destruct process_env; auto.
Qed.

(** X20: [loadEnv] never unsets anything: a service that was configured
    before it ran is configured after, whatever [process.env] and
    [import.meta.env] hold. *)
Theorem loadEnv_keeps_configured process_env import_meta_env E service :
  isConfigured E service = true ->
  isConfigured (loadEnv process_env import_meta_env E) service = true.
Proof.
  unfold isConfigured.
  destruct (eqb service (js "supabase")).
  - intros H. apply andb_prop in H. destruct H as [Hu Ha].
    now rewrite !loadEnv_keeps.
  - destruct (eqb service (js "gemini")); [apply loadEnv_keeps|].
    destruct (eqb service (js "maps")); [apply loadEnv_keeps|auto].
Qed.

Lemma loadEnv_keeps_configured_witness :
  isConfigured
    (loadEnv (Some (fun _ => Some (js ""))) (Some (fun _ => None))
       (setEnv initial (js "GEMINI_API_KEY") (js "AIza-key")))
    (js "gemini") = true.
Proof.
  apply loadEnv_keeps_configured. reflexivity.
Defined.

End EnvJsFacts.

(** ** Similarity search of the browser library *)

Module SimilarityFacts.

Import Observations Similarity ChunkStoreFacts GatewayFacts.
Local Open Scope Q_scope.

(** The rows that pass the WHERE clause are rows of the table with an
    embedding, at the distance [<=>] gives, with a similarity that [>]
    puts above the threshold, and of the document asked for. *)
Lemma where_clause_members cd q thr filter table : forall passed x,
  where_clause cd q thr filter table = inr passed ->
  In x passed ->
  In (snd x) table
  /\ (exists e v,
        erow_embedding (snd x) = Some e /\ q = Some v /\ fst x = cd e v)
  /\ ChunkStore.float8_gt (ChunkStore.one_minus (fst x)) thr = true
  /\ forall d, filter = Some d -> World.document_id (snd x) = d.
Proof.
  induction table as [|r rest IH]; intros passed x; simpl.
  - intros [= <-] [].
  - assert (Hrest : forall p,
               where_clause cd q thr filter rest = inr p -> In x p ->
               (r = snd x \/ In (snd x) rest)
               /\ (exists e v,
                     erow_embedding (snd x) = Some e /\ q = Some v
                     /\ fst x = cd e v)
               /\ ChunkStore.float8_gt (ChunkStore.one_minus (fst x)) thr
                  = true
               /\ forall d, filter = Some d -> World.document_id (snd x) = d).
    { intros p Hp Hx. destruct (IH p x Hp Hx) as (H1 & H2 & H3 & H4). auto. }
    unfold distance.
    destruct (erow_embedding r) as [e|] eqn:He;
      [|intros Hw Hx; exact (Hrest _ Hw Hx)].
    destruct q as [v|]; [|intros Hw Hx; exact (Hrest _ Hw Hx)].
    destruct (Nat.eqb (List.length e) (List.length v)); [|discriminate].
    destruct (where_clause cd (Some v) thr filter rest) as [err|p];
      [discriminate|].
    destruct (ChunkStore.float8_gt (ChunkStore.one_minus (cd e v)) thr)
      eqn:Hgt; simpl; [|intros [= <-] Hx; exact (Hrest _ eq_refl Hx)].
    destruct (filter_clause filter r) eqn:Hf;
      [|intros [= <-] Hx; exact (Hrest _ eq_refl Hx)].
    intros [= <-] [<-|Hx]; [|exact (Hrest _ eq_refl Hx)].
    simpl. split; [now left|]. split; [eauto|]. split; [exact Hgt|].
    intros d ->. simpl in Hf. now apply EnvJsFacts.eqb_eq.
Qed.

(** The WHERE clause fails on nothing but a vector of another
    dimension. *)
Lemma where_clause_runs cd q thr filter table :
  (forall r e v,
      In r table -> erow_embedding r = Some e -> q = Some v ->
      List.length e = List.length v) ->
  exists passed, where_clause cd q thr filter table = inr passed.
Proof.
  induction table as [|r rest IH]; intros Hd; simpl; [eauto|].
  destruct IH as [p Hp]; [intros r' e v Hr'; apply Hd; now right|].
  unfold distance. destruct (erow_embedding r) as [e|] eqn:He; [|eauto].
  destruct q as [v|]; [|eauto].
  rewrite (proj2 (Nat.eqb_eq _ _) (Hd r e v (or_introl eq_refl) He eq_refl)).
  rewrite Hp. eauto.
Qed.

Lemma insert_members x l y :
  In y (insert_by_distance x l) -> y = x \/ In y l.
Proof.
  induction l as [|z r IH]; simpl.
  - intros [<-|[]]. now left.
  - destruct (ChunkStore.float8_le (fst x) (fst z)); simpl.
    + intros [<-|H]; auto.
    + intros [<-|H]; auto. destruct (IH H); auto.
Qed.

Lemma order_members l y : In y (order_by_distance l) -> In y l.
Proof.
  induction l as [|x r IH]; simpl; [auto|].
  intros H. apply insert_members in H. destruct H as [->|H]; auto.
Qed.

Lemma insert_sorted x l :
  StronglySorted nearer l -> StronglySorted nearer (insert_by_distance x l).
Proof.
  induction l as [|z r IH]; intros Hs; simpl.
  - constructor; constructor.
  - apply StronglySorted_inv in Hs. destruct Hs as [Hr Hz].
    destruct (ChunkStore.float8_le (fst x) (fst z)) eqn:Hxz.
    + constructor.
      * now constructor.
      * constructor; [exact Hxz|].
        eapply Forall_impl; [|exact Hz].
        intros a Ha. unfold nearer in *.
        eapply float8_le_trans; eassumption.
    + apply float8_le_false in Hxz. constructor; [now apply IH|].
      apply Forall_forall. intros y Hy.
      apply insert_members in Hy. destruct Hy as [->|Hy].
      * exact Hxz.
      * rewrite Forall_forall in Hz. now apply Hz.
Qed.

Lemma order_sorted l : StronglySorted nearer (order_by_distance l).
Proof.
  induction l as [|x r IH]; simpl; [constructor|].
  now apply insert_sorted.
Qed.

Lemma select_row_more_similar a b :
  nearer a b -> more_similar (select_row a) (select_row b).
Proof.
  unfold nearer, more_similar, select_row. simpl. apply one_minus_order.
Qed.

Lemma match_embeddings_sound cd table query_embedding match_threshold
    match_count filter_document_id rows :
  match_embeddings cd table query_embedding match_threshold match_count
    filter_document_id = inr rows ->
  Forall (fun r =>
            selected cd table query_embedding r
            /\ ChunkStore.float8_gt (similarity r) match_threshold = true
            /\ forall d, filter_document_id = Some d -> document_id r = d)
    rows
  /\ (Z.of_nat (List.length rows) <= match_count)%Z
  /\ StronglySorted more_similar rows.
Proof.
  unfold match_embeddings.
  destruct (negb (ChunkStore.is_int4 match_count)); [discriminate|].
  assert (Hscan :
    (if (match_count <? 0)%Z
     then inl (js "LIMIT must not be negative")
     else if (match_count =? 0)%Z then inr []
     else
       match where_clause cd query_embedding match_threshold
               filter_document_id table with
       | inl e => inl e
       | inr passed =>
           inr (map select_row
                  (firstn (Z.to_nat match_count) (order_by_distance passed)))
       end) = inr rows ->
    Forall (fun r =>
              selected cd table query_embedding r
              /\ ChunkStore.float8_gt (similarity r) match_threshold = true
              /\ forall d, filter_document_id = Some d -> document_id r = d)
      rows
    /\ (Z.of_nat (List.length rows) <= match_count)%Z
    /\ StronglySorted more_similar rows).
  { destruct (Z.ltb_spec match_count 0); [discriminate|].
    destruct (Z.eqb_spec match_count 0).
    { intros [= <-]. simpl. repeat split; [constructor|lia|constructor]. }
    destruct (where_clause cd query_embedding match_threshold
                filter_document_id table) as [e|passed] eqn:Hw;
      [discriminate|].
    intros [= <-]. split; [|split].
    - apply Forall_forall. intros r Hr. apply in_map_iff in Hr.
      destruct Hr as (x & <- & Hx).
      apply firstn_members, order_members in Hx.
      destruct (where_clause_members _ _ _ _ _ _ _ Hw Hx)
        as (Hin & (e & v & He & Hq & Hd) & Hgt & Hf).
      split; [|split; [exact Hgt|exact Hf]].
      exists (snd x), e, v. simpl. rewrite Hd. auto 6.
    - rewrite length_map.
      pose proof (firstn_le_length (Z.to_nat match_count)
                    (order_by_distance passed)).
      lia.
    - apply map_sorted with (R := nearer);
        [exact select_row_more_similar|].
      apply firstn_sorted, order_sorted. }
  destruct query_embedding as [[|q0 q]|]; [discriminate|exact Hscan..].
Qed.

Lemma match_embeddings_runs cd table query_embedding match_threshold
    match_count filter_document_id :
  (0 <= match_count <= 2147483647)%Z ->
  query_embedding <> Some [] ->
  (forall r e v,
      In r table -> erow_embedding r = Some e -> query_embedding = Some v ->
      List.length e = List.length v) ->
  exists rows,
    match_embeddings cd table query_embedding match_threshold match_count
      filter_document_id = inr rows.
Proof.
  intros Hk Hq Hd. unfold match_embeddings, ChunkStore.is_int4.
  replace (-2147483648 <=? match_count)%Z with true
    by (symmetry; apply Z.leb_le; lia).
  replace (match_count <=? 2147483647)%Z with true
    by (symmetry; apply Z.leb_le; lia).
  simpl negb. cbv iota.
  destruct (where_clause_runs cd query_embedding match_threshold
              filter_document_id table Hd) as [p Hp].
  destruct (Z.ltb_spec match_count 0); [lia|].
  rewrite Hp.
  destruct query_embedding as [[|q0 q]|]; [congruence| |];
    destruct (match_count =? 0)%Z; eauto.
Qed.

(** X21: [match_embeddings] returns for every limit from 0 to the
    greatest [int] and every query vector that is NULL or has the
    dimension of the stored embeddings. Each row it returns is made from
    a row of the table that has an embedding, with 1 minus the distance
    to the query vector as its similarity; that similarity is one that
    [>] puts above the threshold: a greater number, or NaN; when a
    document filter is given the row is of that document. There are at
    most [match_count] rows, and they come with the similarities that
    are numbers first, the greatest first, then the NaN ones. *)
Theorem match_embeddings_rows cd table query_embedding match_threshold
    match_count filter_document_id :
  ((0 <= match_count <= 2147483647)%Z ->
   query_embedding <> Some [] ->
   (forall r e v,
       In r table -> erow_embedding r = Some e ->
       query_embedding = Some v -> List.length e = List.length v) ->
   exists rows,
     match_embeddings cd table query_embedding match_threshold match_count
       filter_document_id = inr rows)
  /\ forall rows,
       match_embeddings cd table query_embedding match_threshold match_count
         filter_document_id = inr rows ->
       Forall (fun r =>
                 selected cd table query_embedding r
                 /\ ChunkStore.float8_gt (similarity r) match_threshold
                    = true
                 /\ forall d, filter_document_id = Some d ->
                              document_id r = d) rows
       /\ (Z.of_nat (List.length rows) <= match_count)%Z
       /\ StronglySorted more_similar rows.
Proof.
  split.
  - apply match_embeddings_runs.
  - apply match_embeddings_sound.
Qed.

Lemma match_embeddings_rows_witness :
  exists rows,
    match_embeddings Scenarios.unit_distance
      [ mkEmbeddingRow (js "doc-1") 0 (js "intro") (Some Scenarios.unit_x)
          0 5;
        mkEmbeddingRow (js "doc-2") 0 (js "blank")
          (Some Scenarios.zero_vector) 0 0;
        mkEmbeddingRow (js "doc-2") 1 (js "prices")
          (Some Scenarios.unit_xy) 0 6;
        mkEmbeddingRow (js "doc-2") 2 (js "terms") None 7 12 ]
      (Some Scenarios.unit_x) (Finite (1 # 2)) 5 (Some (js "doc-2"))
    = inr rows
    /\ map content rows = [js "prices"; js "blank"]
    /\ map similarity rows = [Finite (3 # 5); NaN]
    /\ Forall (fun r => document_id r = js "doc-2") rows.
Proof.
  destruct (match_embeddings_rows Scenarios.unit_distance
              [ mkEmbeddingRow (js "doc-1") 0 (js "intro")
                  (Some Scenarios.unit_x) 0 5;
                mkEmbeddingRow (js "doc-2") 0 (js "blank")
                  (Some Scenarios.zero_vector) 0 0;
                mkEmbeddingRow (js "doc-2") 1 (js "prices")
                  (Some Scenarios.unit_xy) 0 6;
                mkEmbeddingRow (js "doc-2") 2 (js "terms") None 7 12 ]
              (Some Scenarios.unit_x) (Finite (1 # 2)) 5
              (Some (js "doc-2")))
    as [Hex Hall].
  destruct Hex as [rows Hr].
  - lia.
  - vm_compute. discriminate.
  - intros r e v [<-|[<-|[<-|[<-|[]]]]] [= <-] [= <-]; reflexivity.
  - exists rows. destruct (Hall rows Hr) as (Hf & _).
    split; [exact Hr|].
    assert (Hd : Forall (fun r => document_id r = js "doc-2") rows).
    { eapply Forall_impl; [|exact Hf]. intros r (_ & _ & Hd). now apply Hd. }
    vm_compute in Hr. injection Hr as <-.
    split; [reflexivity|]. split; [reflexivity|exact Hd].
Defined.

Local Close Scope Q_scope.
Local Open Scope Z_scope.

(** X22: [searchSimilar] always resolves and only reads. When it reports an
    error there are no results; otherwise there are at most [topK]
    results (5 when [topK] is absent or 0), each made from a stored
    embedding and with a similarity that [>] puts above the threshold
    (0.7 when [threshold] is absent or 0): a greater number, or NaN;
    and, if a non-empty [documentId] was given, of that document. The
    similarities that are numbers come first, the greatest first, then
    the NaN ones. *)
Theorem searchSimilar_results F E query options w :
  exists r w',
    searchSimilar F E query options w = (Ok r, w')
    /\ document_chunks w' = document_chunks w
    /\ World.embeddings w' = World.embeddings w
    /\ (Similarity.error r <> None -> results r = [])
    /\ Z.of_nat (List.length (results r))
       <= Z.max 0 (RagPipelineChunker.num_or (topK options) 5)
    /\ Forall (fun m =>
                 passes (threshold_or (threshold options) (7 # 10))
                   (similarity m)
                 /\ (exists row e,
                       In row (World.embeddings w)
                       /\ erow_embedding row = Some e
                       /\ document_id m = World.document_id row
                       /\ content m = erow_content row)
                 /\ forall d, filter_of (documentId options) = Some d ->
                              document_id m = d) (results r)
    /\ StronglySorted more_similar (results r).
Proof.
  assert (Hnone : forall (m : jsstring) (w' : State),
             document_chunks w' = document_chunks w ->
             World.embeddings w' = World.embeddings w ->
             exists r w'',
               (Ok (mkFound [] (Some m)), w') = (Ok r, w'')
               /\ document_chunks w'' = document_chunks w
               /\ World.embeddings w'' = World.embeddings w
               /\ (Similarity.error r <> None -> results r = [])
               /\ Z.of_nat (List.length (results r))
                  <= Z.max 0 (RagPipelineChunker.num_or (topK options) 5)
               /\ Forall (fun m =>
                            passes (threshold_or (threshold options) (7 # 10))
                              (similarity m)
                            /\ (exists row e,
                                  In row (World.embeddings w)
                                  /\ erow_embedding row = Some e
                                  /\ document_id m = World.document_id row
                                  /\ content m = erow_content row)
                            /\ forall d,
                                 filter_of (documentId options) = Some d ->
                                 document_id m = d) (results r)
               /\ StronglySorted more_similar (results r)).
  { intros m w' H1 H2. eexists. eexists. split; [reflexivity|].
    simpl. repeat split; auto; try lia; constructor. }
  unfold searchSimilar.
  destruct (isConfigured_supabase E); simpl; [|now apply Hnone].
  destruct (isConfigured_gemini E) eqn:Hg; simpl; [|now apply Hnone].
  unfold try_catch. unfold bind at 1.
  destruct (generateEmbedding_run E query w Hg) as [err ->].
  cbn [GeminiClient.error GeminiClient.embedding].
  destruct (match err with Some embError => truthy embError | None => false end);
    [now apply Hnone|].
  destruct (ChunkStore.getSupabase E); cbn [negb]; [|now apply Hnone].
  unfold bind, rpc_match_embeddings.
  destruct (F _ _ _ _); [now apply Hnone|].
  destruct (match_embeddings _ _ _ _ _ _) as [e|rows] eqn:Hm;
    [now apply Hnone|].
  apply match_embeddings_sound in Hm.
  destruct Hm as (Hall & Hlen & Hsorted).
  eexists. eexists. split; [reflexivity|]. simpl.
  split; [reflexivity|]. split; [reflexivity|].
  split; [congruence|]. split; [lia|]. split; [|exact Hsorted].
  eapply Forall_impl; [|exact Hall].
  intros m ((row & e & v & Hin & He & _ & Hd & Hc & _) & Hgt & Hf).
  split; [now apply float8_gt_number in Hgt|]. split; [|exact Hf].
  exists row, e. auto.
Qed.

End SimilarityFacts.

(** ** The create-lead flow *)

Module CreateLeadFacts.

Import Observations JsStringFacts CreateLead.

Lemma filled_string v :
  not_a_filled_string v = false ->
  exists s, v = VString s /\ trim s <> [].
Proof.
  destruct v; simpl; try discriminate. intros H.
  apply orb_false_elim in H. destruct H as [_ H].
  exists s. split; [reflexivity|]. intros E. rewrite E in H. discriminate H.
Qed.

Lemma optional_text_filled v t :
  optional_text v = Some t -> t <> [] /\ trimmed t.
Proof.
  destruct v; simpl; try discriminate.
  destruct (truthy (trim s)) eqn:Hs; [|discriminate].
  intros [= <-]. split; [|apply trim_trimmed].
  intros E. rewrite E in Hs. discriminate Hs.
Qed.

(** X23: A payload that does not validate is answered with the error of the
    validation, and nothing else happens: the table is not touched, the
    environment is not even looked at. *)
Theorem createLead_invalid_payload valid_date D E a leads :
  valid (validatePayload valid_date a) = false ->
  createLead valid_date D E a leads
  = (Ok (mkOutcome false None
           (validation_error (validatePayload valid_date a))), leads).
Proof.
  intros H. unfold createLead, try_catch. now rewrite H.
Qed.

Lemma createLead_invalid_payload_witness :
  createLead (fun _ => true) (fun _ _ => Created (js "id-1"))
    (Scenarios.deployment None [] None)
    (Object (mkPayload (VString (js "John")) (VString (js "  ")) VUndefined
               VUndefined VUndefined VUndefined)) []
  = (Ok (mkOutcome false None
           (Some (js "Phone is required and must be a non-empty string"))),
     []).
Proof.
  apply (createLead_invalid_payload (fun _ => true)
           (fun _ _ => Created (js "id-1"))
           (Scenarios.deployment None [] None)
           (Object (mkPayload (VString (js "John")) (VString (js "  "))
                      VUndefined VUndefined VUndefined VUndefined)) []).
  reflexivity.
Defined.

(** X24: [createLead] always resolves, and it adds at most one row to
    [leads]: exactly one when it reports success, none otherwise. The
    row it adds has a name and a phone that are trimmed and not empty, a
    budget and a requirement that are null or trimmed and not empty, and
    the source [website_chat]. *)
Theorem createLead_stored_lead valid_date D E a leads :
  exists r leads',
    createLead valid_date D E a leads = (Ok r, leads')
    /\ (success r = false -> leads' = leads)
    /\ (success r = true ->
        exists lead,
          leads' = leads ++ [lead]
          /\ lead_name lead <> [] /\ trimmed (lead_name lead)
          /\ lead_phone lead <> [] /\ trimmed (lead_phone lead)
          /\ (forall b, lead_budget lead = Some b -> b <> [] /\ trimmed b)
          /\ (forall q, lead_requirement lead = Some q ->
                        q <> [] /\ trimmed q)
          /\ lead_source lead = js "website_chat").
Proof.
  unfold createLead, try_catch.
  destruct (valid (validatePayload valid_date a)) eqn:Hv; simpl;
    [|eexists; eexists; split; [reflexivity|];
      split; [reflexivity|discriminate]].
  destruct a as [|p]; [discriminate Hv|].
  unfold bind, validateEnvironment.
  destruct (_ ++ _) as [|m ms];
    [|eexists; eexists; split; [reflexivity|];
      split; [reflexivity|discriminate]].
  unfold ret at 1.
  destruct (D leads _) as [i|m|m];
    try (eexists; eexists; split; [reflexivity|];
         split; [reflexivity|discriminate]).
  eexists. eexists. split; [reflexivity|]. split; [discriminate|].
  intros _. eexists. split; [reflexivity|]. simpl.
  simpl in Hv.
  destruct (not_a_filled_string (name p)) eqn:Hn; [discriminate Hv|].
  destruct (not_a_filled_string (phone p)) eqn:Hp; [discriminate Hv|].
  apply filled_string in Hn. destruct Hn as (n & -> & Hn).
  apply filled_string in Hp. destruct Hp as (ph & -> & Hp).
  simpl.
  split; [exact Hn|]. split; [apply trim_trimmed|].
  split; [exact Hp|]. split; [apply trim_trimmed|].
  split; [intros b Hb; now apply optional_text_filled in Hb|].
  split; [intros q Hq; now apply optional_text_filled in Hq|reflexivity].
Qed.

End CreateLeadFacts.

(** ** Runs of the properties above on concrete inputs *)

Module Runs.

Import Observations Scenarios.

Lemma cleanText_normal_form_witness :
  single_spaced
    (ProcessDocumentChunker.cleanText (js " two   bedroom" ++ [LF] ++ js "flats "))
  /\ ProcessDocumentChunker.cleanText
       (js " two   bedroom" ++ [LF] ++ js "flats ")
     = js "two bedroom flats".
Proof.
  split; [|reflexivity].
  exact (proj1 (proj2 (NormalizerFacts.cleanText_normal_form
                         (js " two   bedroom" ++ [LF] ++ js "flats ")))).
Defined.

Lemma chunkDocument_contents_and_ids_witness :
  exists c,
    nth_error (RagPipelineChunker.chunkDocument three_paragraphs small_chunks)
      2 = Some c
    /\ RagPipelineChunker.id c = 2
    /\ RagPipelineChunker.content c = js "beta gamma".
Proof.
  eexists. split; [reflexivity|]. split; [|reflexivity].
  exact (proj2 (ParagraphFacts.chunkDocument_contents_and_ids
                  three_paragraphs small_chunks) 2%nat _ eq_refl).
Defined.

Lemma storeVectors_all_or_nothing_witness :
  exists r w',
    RagPipeline.storeVectors (deployment key [] None) (js "doc-1")
      two_chunks empty_state = (Ok r, w')
    /\ RagPipeline.count r = Some 2
    /\ map erow_content (World.embeddings w') = [js "intro"; js "prices"].
Proof.
  destruct (IngestionFacts.storeVectors_all_or_nothing
              (deployment key [] None) (js "doc-1") two_chunks empty_state)
    as (r & w' & Hr & _ & Hok & _).
  exists r, w'. split; [exact Hr|].
  pose proof Hr as Hv. vm_compute in Hv. injection Hv as <- <-.
  destruct (Hok eq_refl) as (rows & _ & _ & Hc & _).
  split; [exact Hc|reflexivity].
Defined.

Lemma validateEnv_isConfigured_witness :
  EnvJs.validateEnv
    (EnvJs.loadEnv (Some (fun _ => Some (js "set"))) None EnvJs.initial)
  = true.
Proof.
  apply (proj2 (EnvJsFacts.validateEnv_isConfigured
                  (EnvJs.loadEnv (Some (fun _ => Some (js "set"))) None
                     EnvJs.initial))).
  repeat split.
Defined.

Lemma searchSimilar_results_witness :
  exists r w',
    Similarity.searchSimilar (fun _ _ _ _ => None) (deployment key [] None)
      (js "sea view") (Similarity.mkOptions None (Some 0%Q) None)
      (mkState [] []
         [ mkEmbeddingRow (js "doc-1") 0 (js "intro") (Some unit_x) 0 5;
           mkEmbeddingRow (js "doc-2") 0 (js "blank") (Some zero_vector) 0 0;
           mkEmbeddingRow (js "doc-2") 1 (js "prices") (Some unit_xy) 0 6 ])
    = (Ok r, w')
    /\ map Similarity.content (Similarity.results r)
       = [js "intro"; js "blank"]
    /\ map Similarity.similarity (Similarity.results r) = [Finite 1; NaN]
    /\ Forall (fun m => passes (7 # 10) (Similarity.similarity m))
         (Similarity.results r).
Proof.
  destruct (SimilarityFacts.searchSimilar_results (fun _ _ _ _ => None)
              (deployment key [] None) (js "sea view")
              (Similarity.mkOptions None (Some 0%Q) None)
              (mkState [] []
                 [ mkEmbeddingRow (js "doc-1") 0 (js "intro") (Some unit_x)
                     0 5;
                   mkEmbeddingRow (js "doc-2") 0 (js "blank")
                     (Some zero_vector) 0 0;
                   mkEmbeddingRow (js "doc-2") 1 (js "prices")
                     (Some unit_xy) 0 6 ]))
    as (r & w' & Hr & _ & _ & _ & _ & Hall & _).
  exists r, w'. split; [exact Hr|].
  pose proof Hr as Hv. vm_compute in Hv. injection Hv as <- <-.
  split; [reflexivity|]. split; [reflexivity|].
  eapply Forall_impl; [|exact Hall]. intros m [Hm _]. exact Hm.
Defined.

Lemma createLead_stored_lead_witness :
  exists r leads',
    CreateLead.createLead (fun _ => true)
      (fun _ _ => CreateLead.Created (js "id-1")) (deployment None [] None)
      (CreateLead.Object
         (CreateLead.mkPayload (CreateLead.VString (js " John Doe "))
            (CreateLead.VString (js "+971501234567"))
            (CreateLead.VString (js "  ")) CreateLead.VUndefined
            CreateLead.VUndefined CreateLead.VUndefined)) []
    = (Ok r, leads')
    /\ leads'
       = [CreateLead.mkLead (js "John Doe") (js "+971501234567") None None
            (js "website_chat") false None].
Proof.
  destruct (CreateLeadFacts.createLead_stored_lead (fun _ => true)
              (fun _ _ => CreateLead.Created (js "id-1"))
              (deployment None [] None)
              (CreateLead.Object
                 (CreateLead.mkPayload (CreateLead.VString (js " John Doe "))
                    (CreateLead.VString (js "+971501234567"))
                    (CreateLead.VString (js "  ")) CreateLead.VUndefined
                    CreateLead.VUndefined CreateLead.VUndefined)) [])
    as (r & leads' & Hr & _).
  exists r, leads'. split; [exact Hr|].
  vm_compute in Hr. now injection Hr as _ <-.
Defined.

End Runs.
